(** * A shallow embedding of the dinosaur pet asset loader and renderer

    Sources embedded here:
    - [src/dino_loader.py]: [DinoImage], [DinoPartFrames], [DinoData],
      [parse_filename], [load_dinosaur], [add_to_dinosaur];
    - [src/renderer.py]: [composite_image], [render_dinosaur].

    Modelling conventions.
    - A Python [str] is a [string]; every character is one code point
      below 256.  On that range the regular expression class [\d] is
      exactly the ASCII digits.
    - A Python [dict] is an insertion-ordered association list with
      unique keys (module [PyDict]); assignment to an existing key keeps
      the key's position, assignment to a new key appends, [del] removes.
    - Python exceptions are values of [exn], carried by [result].
    - [numpy.float32] and Python [float] are IEEE 754 binary32 and
      binary64, computed with the bit-exact operations of [SpecFloat].
    - A [numpy] array of shape (h, w, 4) and dtype uint8 is a list of
      rows of pixels together with its shape. *)

From Stdlib Require Import ZArith String Ascii Bool Lia.
From Stdlib Require Import Floats.SpecFloat.
From stdpp Require Import base list option strings.

Open Scope string_scope.
Open Scope list_scope.
Open Scope Z_scope.

(** ** Exceptions *)

Inductive exn : Type :=
| ValueError
| KeyError
| IndexError
| OverflowError
| ImageDecodeError.

Inductive result (A : Type) : Type :=
| Ok (a : A)
| Raise (e : exn).
Arguments Ok {A} a.
Arguments Raise {A} e.

Definition rbind {A B : Type} (r : result A) (k : A -> result B) : result B :=
  match r with
  | Ok a => k a
  | Raise e => Raise e
  end.

Notation "'try' x <- r ; k" := (rbind r (fun x => k))
  (at level 10, x name, r at level 100, k at level 200).

(** ** Python strings *)

Module PyStr.

(** [\d] on code points below 256. *)
Definition is_digit (c : ascii) : bool :=
  let n := N_of_ascii c in ((48 <=? n) && (n <=? 57))%N.

Definition digit_value (c : ascii) : Z := Z.of_N (N_of_ascii c) - 48.

Fixpoint all_digits (s : string) : bool :=
  match s with
  | EmptyString => true
  | String c r => is_digit c && all_digits r
  end.

(** [int(s)] for a non-empty string of decimal digits. *)
Fixpoint int_acc (acc : Z) (s : string) : Z :=
  match s with
  | EmptyString => acc
  | String c r => int_acc (10 * acc + digit_value c) r
  end.

Definition int (s : string) : Z := int_acc 0 s.

(** [s.rfind(c)]; [None] stands for Python's [-1]. *)
Fixpoint rfind (c : ascii) (s : string) : option nat :=
  match s with
  | EmptyString => None
  | String a r =>
      match rfind c r with
      | Some i => Some (S i)
      | None => if Ascii.eqb a c then Some O else None
      end
  end.

(** [s.split(c)]: always at least one piece. *)
Fixpoint split (c : ascii) (s : string) : list string :=
  match s with
  | EmptyString => [EmptyString]
  | String a r =>
      if Ascii.eqb a c then EmptyString :: split c r
      else match split c r with
           | h :: t => String a h :: t
           | [] => [String a EmptyString]
           end
  end.

(** [s.split(c, 1)]: cut at the first occurrence of [c] only. *)
Fixpoint split1 (c : ascii) (s : string) : list string :=
  match s with
  | EmptyString => [EmptyString]
  | String a r =>
      if Ascii.eqb a c then [EmptyString; r]
      else match split1 c r with
           | h :: t => String a h :: t
           | [] => [String a EmptyString]
           end
  end.

Definition newline : ascii := ascii_of_nat 10.

(** The tail [(\d+)$] of the frame pattern, tried on the text that
    follows an underscore.  The digit run is taken greedily; [$]
    matches at the end of the string and also just before a newline
    that is the last character.  The result is group 1. *)
Fixpoint digits_dollar (s : string) : option string :=
  match s with
  | EmptyString => None
  | String c r =>
      if is_digit c then
        match r with
        | EmptyString => Some (String c EmptyString)
        | String c' r' =>
            if is_digit c' then
              match digits_dollar r with
              | Some d => Some (String c d)
              | None => None
              end
            else if Ascii.eqb c' newline then
              match r' with
              | EmptyString => Some (String c EmptyString)
              | _ => None
              end
            else None
        end
      else None
  end.

(** [re.search(r'_(\d+)$', s)]: the leftmost position where the
    pattern matches.  The result is [(s[:m.start()], m.group(1))]. *)
Fixpoint search_frame (s : string) : option (string * string) :=
  match s with
  | EmptyString => None
  | String c r =>
      let later :=
        match search_frame r with
        | Some (pre, d) => Some (String c pre, d)
        | None => None
        end in
      if Ascii.eqb c "_" then
        match digits_dollar r with
        | Some d => Some (EmptyString, d)
        | None => later
        end
      else later
  end.

End PyStr.

(** ** [pathlib] *)

Module PyPath.

(** A [Path] is the list of its components. *)
Definition Path : Type := list string.

(** [Path(s)]: split on the separator, dropping empty and [.]
    components. *)
Definition of_string (s : string) : Path :=
  filter (fun p => p <> EmptyString /\ p <> ".") (PyStr.split "/" s).

(** [p.name] *)
Definition name (p : Path) : string := List.last p EmptyString.

(** [p.parent] *)
Definition parent (p : Path) : Path := removelast p.

(** [p.stem]: the name without its last suffix.  A dot in first
    position or in last position does not start a suffix. *)
Definition stem_of_name (n : string) : string :=
  match PyStr.rfind "." n with
  | Some i =>
      if ((0 <? i) && (i <? String.length n - 1))%nat
      then String.substring 0 i n
      else n
  | None => n
  end.

Definition stem (p : Path) : string := stem_of_name (name p).

End PyPath.

(** ** [parse_filename] *)

(** The body of [parse_filename] after [stem = Path(filename).stem]. *)
Definition parse_stem (stem : string) : string * option string * option Z :=
  let '(stem, frame_num) :=
    match PyStr.search_frame stem with
    | Some (pre, digits) => (pre, Some (PyStr.int digits))
    | None => (stem, None)
    end in
  let parts := PyStr.split1 "_" stem in
  let base_name := List.hd EmptyString parts in
  let variant := match parts with
                 | _ :: v :: _ => Some v
                 | _ => None
                 end in
  (base_name, variant, frame_num).

Definition parse_filename (filename : string) : string * option string * option Z :=
  parse_stem (PyPath.stem (PyPath.of_string filename)).

(** ** Python dictionaries *)

Module PyDict.
Section Dict.
Context {K V : Type} `{EqDecision K}.

(** Bindings in insertion order. *)
Definition dict : Type := list (K * V).

(** [d.get(k)], and [d[k]] when the binding exists. *)
Fixpoint get (d : dict) (k : K) : option V :=
  match d with
  | [] => None
  | (k', v) :: r => if decide (k' = k) then Some v else get r k
  end.

(** [k in d] *)
Definition contains (d : dict) (k : K) : bool :=
  match get d k with
  | Some _ => true
  | None => false
  end.

(** [d[k] = v]: an existing key keeps its position, a new key goes
    last. *)
Fixpoint set (d : dict) (k : K) (v : V) : dict :=
  match d with
  | [] => [(k, v)]
  | (k', v') :: r =>
      if decide (k' = k) then (k', v) :: r else (k', v') :: set r k v
  end.

(** [del d[k]]: [KeyError] when the key is missing. *)
Fixpoint del (d : dict) (k : K) : result dict :=
  match d with
  | [] => Raise KeyError
  | (k', v') :: r =>
      if decide (k' = k) then Ok r
      else match del r k with
           | Ok r' => Ok ((k', v') :: r')
           | Raise e => Raise e
           end
  end.

Definition keys (d : dict) : list K := map fst d.
Definition values (d : dict) : list V := map snd d.

(** What every dictionary satisfies: no key occurs twice. *)
Definition wf (d : dict) : Prop := NoDup (keys d).

End Dict.
Arguments dict : clear implicits.
End PyDict.

(** ** Floating point *)

(** IEEE 754 binary64: Python [float]. *)
Module F64.
Definition prec : Z := 53.
Definition emax : Z := 1024.
Definition float : Type := spec_float.

(** Conversion of an integer, rounding to nearest even.  An integer
    beyond the range of the format converts to an infinity here, where
    Python raises [OverflowError]; the extents of an array never reach
    that size. *)
Definition of_Z (n : Z) : float := binary_normalize prec emax n 0 false.
Definition mul : float -> float -> float := SFmul prec emax.
Definition sub : float -> float -> float := SFsub prec emax.
Definition div : float -> float -> float := SFdiv prec emax.
Definition eqb : float -> float -> bool := SFeqb.
End F64.

(** IEEE 754 binary32: [numpy.float32]. *)
Module F32.
Definition prec : Z := 24.
Definition emax : Z := 128.
Definition float : Type := spec_float.

Definition of_Z (n : Z) : float := binary_normalize prec emax n 0 false.
Definition add : float -> float -> float := SFadd prec emax.
Definition mul : float -> float -> float := SFmul prec emax.
Definition sub : float -> float -> float := SFsub prec emax.
Definition div : float -> float -> float := SFdiv prec emax.
End F32.

(** The integer part of a finite float (rounding toward zero); [None]
    for an infinity or a NaN. *)
Definition float_trunc (x : spec_float) : option Z :=
  match x with
  | S754_zero _ => Some 0
  | S754_finite s m e =>
      let a := match e with
               | Z0 => Zpos m
               | Zpos p => Z.shiftl (Zpos m) (Zpos p)
               | Zneg p => Z.shiftr (Zpos m) (Zpos p)
               end in
      Some (if s then - a else a)
  | S754_infinity _ => None
  | S754_nan => None
  end.

(** Python's [int(x)] on a float. *)
Definition py_int (x : F64.float) : result Z :=
  match x with
  | S754_nan => Raise ValueError
  | S754_infinity _ => Raise OverflowError
  | _ => match float_trunc x with
         | Some n => Ok n
         | None => Raise ValueError
         end
  end.

(** [a.astype(int)] on one float64 element.  The conversion of a value
    that is not finite is not specified by numpy; the model takes the
    least 64-bit integer, as the common hardware does. *)
Definition astype_int (x : F64.float) : Z :=
  match float_trunc x with
  | Some n => n
  | None => - 2 ^ 63
  end.

(** [a.astype(np.uint8)] on one float32 element: the integer part,
    reduced to eight bits. *)
Definition astype_uint8 (x : F32.float) : Z :=
  match float_trunc x with
  | Some n => n mod 256
  | None => 0
  end.

(** ** Pixel arrays *)

Record pixel : Type := Pixel { chR : Z; chG : Z; chB : Z; chA : Z }.

(** An array of shape [(shape0, shape1, 4)] and dtype uint8. *)
Record ndarray : Type := NdArray {
  shape0 : Z;
  shape1 : Z;
  cells : list (list pixel)
}.

Definition ndarray_wf (a : ndarray) : Prop :=
  shape0 a = Z.of_nat (length (cells a)) /\
  0 <= shape1 a /\
  Forall (fun row => Z.of_nat (length row) = shape1 a) (cells a).

Definition pixel_wf (p : pixel) : Prop :=
  0 <= chR p < 256 /\ 0 <= chG p < 256 /\ 0 <= chB p < 256 /\ 0 <= chA p < 256.

(** [np.fliplr] and [np.flipud] *)
Definition fliplr (a : ndarray) : ndarray :=
  NdArray (shape0 a) (shape1 a) (map (@rev pixel) (cells a)).
Definition flipud (a : ndarray) : ndarray :=
  NdArray (shape0 a) (shape1 a) (rev (cells a)).

(** [l[lo:hi]] for [0 <= lo]. *)
Definition slice {A : Type} (lo hi : Z) (l : list A) : list A :=
  take (Z.to_nat (hi - lo)) (drop (Z.to_nat lo) l).

(** [a[y0:y1, x0:x1]] *)
Definition slice2 (y0 y1 x0 x1 : Z) (rows : list (list pixel)) : list (list pixel) :=
  map (slice x0 x1) (slice y0 y1 rows).

(** [l[lo:lo+len(new)] = new] *)
Definition splice {A : Type} (lo : Z) (new : list A) (l : list A) : list A :=
  take (Z.to_nat lo) l ++ new ++ drop (Z.to_nat lo + length new) l.

(** [a[y0:y0+h, x0:x0+w] = block] for a block of [h] rows of width
    [w]. *)
Definition assign_region (y0 x0 : Z) (block : list (list pixel))
    (rows : list (list pixel)) : list (list pixel) :=
  let old := take (length block) (drop (Z.to_nat y0) rows) in
  splice y0 (zip_with (splice x0) block old) rows.

(** One index of an integer index array; a negative index counts from
    the end. *)
Definition index_at {A : Type} (l : list A) (i : Z) : result A :=
  let n := Z.of_nat (length l) in
  let j := if i <? 0 then i + n else i in
  if (0 <=? j) && (j <? n) then
    match l !! Z.to_nat j with
    | Some a => Ok a
    | None => Raise IndexError
    end
  else Raise IndexError.

Fixpoint rmapM {A B : Type} (f : A -> result B) (l : list A) : result (list B) :=
  match l with
  | [] => Ok []
  | a :: r => try b <- f a; try bs <- rmapM f r; Ok (b :: bs)
  end.

(** [np.arange(n)] *)
Definition arange (n : Z) : list Z := seqZ 0 n.

(** [a[np.ix_(ys, xs)]].  Every index is checked against the extent
    of its axis, also when the other index array is empty. *)
Definition take_ix (a : ndarray) (ys xs : list Z) : result ndarray :=
  try rows <- rmapM (index_at (cells a)) ys;
  try _ <- rmapM (index_at (arange (shape1 a))) xs;
  try picked <- rmapM (fun row => rmapM (index_at row) xs) rows;
  Ok (NdArray (Z.of_nat (length ys)) (Z.of_nat (length xs)) picked).

(** ** The loader's data model: [DinoImage], [DinoPartFrames], [DinoData] *)

Import PyPath.

Record DinoImage : Type := MkDinoImage {
  img_path : Path;
  rgba_data : ndarray;
  img_height : Z;
  img_width : Z;
  anchor : F64.float * F64.float
}.

(** [DinoImage.__init__]: the default anchor is the centre. *)
Definition DinoImage_init (path : Path) (rgba : ndarray)
    (anchor : option (F64.float * F64.float)) : DinoImage :=
  let height := shape0 rgba in
  let width := shape1 rgba in
  MkDinoImage path rgba height width
    match anchor with
    | None => (F64.div (F64.of_Z width) (F64.of_Z 2),
               F64.div (F64.of_Z height) (F64.of_Z 2))
    | Some a => a
    end.

(** [DinoImage.from_file].  Decoding is the codec's work: a file is
    given by what the codec returns for it, [None] when it rejects the
    file. *)
Definition from_file (path : Path) (content : option ndarray) : result DinoImage :=
  match content with
  | Some rgba => Ok (DinoImage_init path rgba None)
  | None => Raise ImageDecodeError
  end.

Record DinoPartFrames : Type := MkDinoPartFrames {
  pf_name : string;
  pf_variant : option string;
  frames : list DinoImage
}.

Definition DinoPartFrames_init (name : string) (variant : option string) : DinoPartFrames :=
  MkDinoPartFrames name variant [].

Definition add_frame (self : DinoPartFrames) (image : DinoImage) : DinoPartFrames :=
  MkDinoPartFrames (pf_name self) (pf_variant self) (frames self ++ [image]).

(** [index % n] is Python's: the sign of the result is the divisor's,
    as for [Z.modulo]. *)
Definition get_frame (self : DinoPartFrames) (index : Z) : result DinoImage :=
  match frames self with
  | [] => Raise ValueError
  | _ =>
      match frames self !! Z.to_nat (index mod Z.of_nat (length (frames self))) with
      | Some image => Ok image
      | None => Raise IndexError
      end
  end.

Definition frame_count (self : DinoPartFrames) : Z := Z.of_nat (length (frames self)).

(** The variants of one part: [Dict[Optional[str], DinoPartFrames]]. *)
Abbreviation variant_map := (PyDict.dict (option string) DinoPartFrames).

Record DinoData : Type := MkDinoData {
  dino_name : string;
  base_path : Path;
  parts : PyDict.dict string variant_map;
  stats : PyDict.dict string Z
}.

Definition DinoData_init (name : string) (base : Path) : DinoData :=
  MkDinoData name base [] [("hunger", 50)].

Definition with_parts (self : DinoData) (ps : PyDict.dict string variant_map) : DinoData :=
  MkDinoData (dino_name self) (base_path self) ps (stats self).

(** [DinoData.add_part].  Every sequence object is held by one slot of
    one dictionary, so updating the object in place is updating the
    slot. *)
Definition add_part (self : DinoData) (part_name : string) (variant : option string)
    (image : DinoImage) (frame_num : option Z) : DinoData :=
  let ps :=
    if PyDict.contains (parts self) part_name then parts self
    else PyDict.set (parts self) part_name [] in
  let vm := default [] (PyDict.get ps part_name) in
  let vm :=
    if PyDict.contains vm variant then vm
    else PyDict.set vm variant (DinoPartFrames_init part_name variant) in
  let seq := default (DinoPartFrames_init part_name variant) (PyDict.get vm variant) in
  with_parts self (PyDict.set ps part_name (PyDict.set vm variant (add_frame seq image))).

(** [DinoData.get_part_frames] *)
Definition get_part_frames (self : DinoData) (part_name : string)
    (variant : option string) : option DinoPartFrames :=
  match PyDict.get (parts self) part_name with
  | None => None
  | Some vm =>
      match PyDict.get vm variant with
      | Some seq => Some seq
      | None =>
          match PyDict.get vm None with
          | Some seq => Some seq
          | None =>
              match PyDict.values vm with
              | seq :: _ => Some seq
              | [] => None
              end
          end
      end
  end.

Definition get_available_variants (self : DinoData) (part_name : string)
    : list (option string) :=
  match PyDict.get (parts self) part_name with
  | None => []
  | Some vm => PyDict.keys vm
  end.

(** ** The file system seen by the loader *)

(** What a path designates.  For a directory, the listing is the value
    of [sorted(path.rglob('*.png'))]: for each file, in that order, its
    path relative to the directory and what the codec returns for it. *)
Inductive fs_node : Type :=
| FsFile (content : option ndarray)
| FsDir (pngs : list (Path * option ndarray))
| FsAbsent.

(** ** [load_dinosaur] *)

(** One iteration of the directory scan of [load_dinosaur]. *)
Definition load_step (path : Path) (dino : DinoData)
    (entry : Path * option ndarray) : result DinoData :=
  let '(relative, content) := entry in
  try triple <-
    (if (length relative =? 1)%nat then
       let '(base_name, variant, frame_num) := parse_filename (name relative) in
       Ok (base_name, variant, frame_num)
     else
       match relative with
       | [] => Raise IndexError
       | part_name :: rest =>
           let sub_path := rest in
           let '(base_name, variant, frame_num) := parse_filename (name sub_path) in
           let variant :=
             if (2 <? length relative)%nat then List.nth_error relative 1 else variant in
           Ok (part_name, variant, frame_num)
       end);
  let '(part_name, variant, frame_num) := triple in
  try img <- from_file (path ++ relative)%list content;
  Ok (add_part dino part_name variant img frame_num).

Fixpoint rfoldM {S A : Type} (f : S -> A -> result S) (s : S) (l : list A) : result S :=
  match l with
  | [] => Ok s
  | a :: r => try s' <- f s a; rfoldM f s' r
  end.

Definition load_dinosaur (path : Path) (node : fs_node) : result DinoData :=
  match node with
  | FsFile content =>
      let dino := DinoData_init (stem path) (parent path) in
      try img <- from_file path content;
      Ok (add_part dino "dino" None img None)
  | FsDir pngs =>
      let dino := DinoData_init (name path) path in
      rfoldM (load_step path) dino pngs
  | FsAbsent => Raise ValueError
  end.

(** ** [add_to_dinosaur] *)

(** The dinosaur is updated in place: the result is its state when the
    call ends, with the exception when the call ends by one. *)
Definition outcome : Type := DinoData * option exn.

(** The single-file branch after the image is loaded: lines 214-225. *)
Definition merge_image (dino : DinoData) (part_name : string) (variant : option string)
    (frame_num : option Z) (img : DinoImage) : outcome :=
  match PyDict.get (parts dino) part_name with
  | Some vm =>
      match PyDict.get vm None with
      | Some existing =>
          let variant := match variant with
                         | None => Some "default"
                         | Some v => Some v
                         end in
          let vm := PyDict.set vm (Some "original") existing in
          match PyDict.del vm None with
          | Ok vm =>
              let dino := with_parts dino (PyDict.set (parts dino) part_name vm) in
              (add_part dino part_name variant img frame_num, None)
          | Raise e =>
              (with_parts dino (PyDict.set (parts dino) part_name vm), Some e)
          end
      | None => (add_part dino part_name variant img frame_num, None)
      end
  | None => (add_part dino part_name variant img frame_num, None)
  end.

(** The directory branch: the loop of lines 229-234. *)
Fixpoint merge_listing (new_path : Path) (dino : DinoData)
    (pngs : list (Path * option ndarray)) : outcome :=
  match pngs with
  | [] => (dino, None)
  | (relative, content) :: rest =>
      let '(base_name, variant, frame_num) := parse_filename (name relative) in
      match from_file (new_path ++ relative)%list content with
      | Ok img => merge_listing new_path (add_part dino base_name variant img frame_num) rest
      | Raise e => (dino, Some e)
      end
  end.

Definition add_to_dinosaur (dino : DinoData) (new_path : Path) (node : fs_node)
    (part_name : option string) : outcome :=
  match node with
  | FsFile content =>
      let '(part_name, variant, frame_num) :=
        match part_name with
        | None => parse_filename (name new_path)
        | Some p => (p, None, None)
        end in
      match from_file new_path content with
      | Ok img => merge_image dino part_name variant frame_num img
      | Raise e => (dino, Some e)
      end
  | FsDir pngs => merge_listing new_path dino pngs
  | FsAbsent => (dino, None)
  end.

(** ** [composite_image] *)

(** The "over" blend of one source pixel on one destination pixel, as
    lines 108-122 compute it for every element of the two regions, in
    binary32. *)
Definition blend_channel (c_src c_dst : Z) (alpha_src : F32.float) : Z :=
  astype_uint8
    (F32.add (F32.mul (F32.of_Z c_src) alpha_src)
             (F32.mul (F32.of_Z c_dst) (F32.sub (F32.of_Z 1) alpha_src))).

Definition blend_alpha (alpha_src alpha_dst : F32.float) : Z :=
  let alpha_out :=
    F32.add alpha_src (F32.mul alpha_dst (F32.sub (F32.of_Z 1) alpha_src)) in
  astype_uint8 (F32.mul alpha_out (F32.of_Z 255)).

Definition blend_pixel (s d : pixel) : pixel :=
  let alpha_src := F32.div (F32.of_Z (chA s)) (F32.of_Z 255) in
  let alpha_dst := F32.div (F32.of_Z (chA d)) (F32.of_Z 255) in
  Pixel (blend_channel (chR s) (chR d) alpha_src)
        (blend_channel (chG s) (chG d) alpha_src)
        (blend_channel (chB s) (chB d) alpha_src)
        (blend_alpha alpha_src alpha_dst).

(** Lines 53-81: the flipped and scaled source, and the canvas
    coordinates of its top-left corner. *)
Definition place_source (image : DinoImage) (x y : F64.float) (flip_h flip_v : bool)
    (scale : F64.float) : result (ndarray * Z * Z) :=
  let src := rgba_data image in
  let src := if flip_h then fliplr src else src in
  let src := if flip_v then flipud src else src in
  let '(anchor_x, anchor_y) := anchor image in
  try dst_x <- py_int (F64.sub x (F64.mul anchor_x scale));
  try dst_y <- py_int (F64.sub y (F64.mul anchor_y scale));
  let src_h := shape0 src in
  let src_w := shape1 src in
  try scaled_w <- py_int (F64.mul (F64.of_Z src_w) scale);
  try scaled_h <- py_int (F64.mul (F64.of_Z src_h) scale);
  try src <-
    (if negb (F64.eqb scale (F64.of_Z 1)) then
       let x_indices := map (fun i => astype_int (F64.div (F64.of_Z i) scale)) (arange scaled_w) in
       let y_indices := map (fun i => astype_int (F64.div (F64.of_Z i) scale)) (arange scaled_h) in
       take_ix src y_indices x_indices
     else Ok src);
  Ok (src, dst_x, dst_y).

(** The overlap of the placed source with the canvas: lines 84-95. *)
Record overlap : Type := Overlap {
  src_x_start : Z; src_y_start : Z; src_x_end : Z; src_y_end : Z;
  dst_x_start : Z; dst_y_start : Z; dst_x_end : Z; dst_y_end : Z
}.

Definition overlap_of (canvas src : ndarray) (dst_x dst_y : Z) : overlap :=
  let canvas_h := shape0 canvas in
  let canvas_w := shape1 canvas in
  let src_h := shape0 src in
  let src_w := shape1 src in
  let sxs := Z.max 0 (- dst_x) in
  let sys := Z.max 0 (- dst_y) in
  let sxe := Z.min src_w (canvas_w - dst_x) in
  let sye := Z.min src_h (canvas_h - dst_y) in
  let dxs := Z.max 0 dst_x in
  let dys := Z.max 0 dst_y in
  Overlap sxs sys sxe sye dxs dys (dxs + (sxe - sxs)) (dys + (sye - sys)).

(** Lines 84-122: clip, blend, write back. *)
Definition blit (canvas src : ndarray) (dst_x dst_y : Z) : ndarray :=
  let o := overlap_of canvas src dst_x dst_y in
  if (src_x_end o <=? src_x_start o) || (src_y_end o <=? src_y_start o) then canvas
  else
    let src_region :=
      slice2 (src_y_start o) (src_y_end o) (src_x_start o) (src_x_end o) (cells src) in
    let dst_region :=
      slice2 (dst_y_start o) (dst_y_end o) (dst_x_start o) (dst_x_end o) (cells canvas) in
    let out := zip_with (zip_with blend_pixel) src_region dst_region in
    NdArray (shape0 canvas) (shape1 canvas)
      (assign_region (dst_y_start o) (dst_x_start o) out (cells canvas)).

(** [rotation] is accepted and not used. *)
Definition composite_image (canvas : ndarray) (image : DinoImage) (x y : F64.float)
    (flip_h flip_v : bool) (rotation : F64.float) (scale : F64.float) : result ndarray :=
  try placed <- place_source image x y flip_h flip_v scale;
  let '(src, dst_x, dst_y) := placed in
  Ok (blit canvas src dst_x dst_y).

(** ** [render_dinosaur] *)

Definition render_order : list string := ["tail"; "dino"; "legs"; "arms"; "head"].

(** What one iteration of the loop does for a part: nothing, or one
    call of [composite_image]. *)
Inductive part_action : Type :=
| Skip
| Draw (image : DinoImage)
| Crash (e : exn).

Definition part_action_of (dino_data : DinoData)
    (current_variants : PyDict.dict string (option string))
    (current_frames : PyDict.dict string Z) (part_name : string) : part_action :=
  let variant := default None (PyDict.get current_variants part_name) in
  let frame_idx := default 0 (PyDict.get current_frames part_name) in
  match get_part_frames dino_data part_name variant with
  | None => Skip
  | Some part_frames =>
      if frame_count part_frames =? 0 then Skip
      else match get_frame part_frames frame_idx with
           | Ok image => Draw image
           | Raise e => Crash e
           end
  end.

(** The loop over a render order.  The canvas is updated in place: the
    result is its state when the loop ends, with the exception when it
    ends by one. *)
Fixpoint render_parts (order : list string) (canvas : ndarray) (dino_data : DinoData)
    (x y : F64.float) (current_variants : PyDict.dict string (option string))
    (current_frames : PyDict.dict string Z) (flip_h : bool) (scale : F64.float)
    : ndarray * option exn :=
  match order with
  | [] => (canvas, None)
  | part_name :: rest =>
      match part_action_of dino_data current_variants current_frames part_name with
      | Skip =>
          render_parts rest canvas dino_data x y current_variants current_frames flip_h scale
      | Draw image =>
          match composite_image canvas image x y flip_h false (F64.of_Z 0) scale with
          | Ok canvas' =>
              render_parts rest canvas' dino_data x y current_variants current_frames
                flip_h scale
          | Raise e => (canvas, Some e)
          end
      | Crash e => (canvas, Some e)
      end
  end.

Definition render_dinosaur (canvas : ndarray) (dino_data : DinoData) (x y : F64.float)
    (current_variants : PyDict.dict string (option string))
    (current_frames : PyDict.dict string Z) (flip_h : bool) (scale : F64.float)
    : ndarray * option exn :=
  render_parts render_order canvas dino_data x y current_variants current_frames
    flip_h scale.

(** ** [create_canvas] and [clear_canvas] *)

(** [np.zeros((height, width, 4), dtype=np.uint8)] refuses a negative
    extent with [ValueError]; line 16 then stores the zero alpha again. *)
Definition create_canvas (width height : Z) : result ndarray :=
  if (width <? 0) || (height <? 0) then Raise ValueError
  else Ok (NdArray height width
             (replicate (Z.to_nat height) (replicate (Z.to_nat width) (Pixel 0 0 0 0)))).

(** [canvas[:, :, k] = v] for the four channels [k]. *)
Definition set_channel (k : nat) (v : Z) (p : pixel) : pixel :=
  match k with
  | 0%nat => Pixel v (chG p) (chB p) (chA p)
  | 1%nat => Pixel (chR p) v (chB p) (chA p)
  | 2%nat => Pixel (chR p) (chG p) v (chA p)
  | _ => Pixel (chR p) (chG p) (chB p) v
  end.

Definition assign_channel (k : nat) (v : Z) (a : ndarray) : ndarray :=
  NdArray (shape0 a) (shape1 a) (map (map (set_channel k v)) (cells a)).

(** [clear_canvas], for a colour whose four components are bytes
    (what numpy does with a component outside 0..255 depends on its
    version and is left out). *)
Definition clear_canvas (canvas : ndarray) (color : Z * Z * Z * Z) : ndarray :=
  let '(c0, c1, c2, c3) := color in
  let canvas := assign_channel 0 c0 canvas in
  let canvas := assign_channel 1 c1 canvas in
  let canvas := assign_channel 2 c2 canvas in
  assign_channel 3 c3 canvas.

(** ** The host application: [DinoPet] in [src/dino_pet.py] *)

(** The entries of the variant menu, line 148:
    [str(v) if v is not None else "default"]. *)
Definition display_variant (v : option string) : string :=
  match v with
  | Some s => s
  | None => "default"
  end.

Definition display_variants (variants : list (option string)) : list string :=
  map display_variant variants.

(** [DinoPet.change_variant], on the dictionary [current_variants]. *)
Definition change_variant (current_variants : PyDict.dict string (option string))
    (part_name variant_str : string) : PyDict.dict string (option string) :=
  let variant := if decide (variant_str = "default") then None else Some variant_str in
  PyDict.set current_variants part_name variant.

(** [DinoPet.hatch_new], lines 185 and 190-193: [current_variants] is
    cleared, then every part that has variants gets its first one. *)
Definition initial_variants (dino : DinoData) : PyDict.dict string (option string) :=
  fold_left
    (fun current_variants part_name =>
       match get_available_variants dino part_name with
       | v :: _ => PyDict.set current_variants part_name v
       | [] => current_variants
       end)
    (PyDict.keys (parts dino)) [].

Definition with_stats (self : DinoData) (st : PyDict.dict string Z) : DinoData :=
  MkDinoData (dino_name self) (base_path self) (parts self) st.

(** [self.dino.stats.get('hunger', 50)] *)
Definition hunger_of (dino : DinoData) : Z :=
  default 50 (PyDict.get (stats dino) "hunger").

(** [DinoPet.feed], as far as the dinosaur is concerned: lines 230-233. *)
Definition feed (dino : option DinoData) : option DinoData :=
  match dino with
  | None => None
  | Some d =>
      Some (with_stats d (PyDict.set (stats d) "hunger" (Z.min 100 (hunger_of d + 20))))
  end.

(** [DinoPet.update_hunger]: the dinosaur and [last_hunger_decrease]
    after the call, given what [time.time()] returns. *)
Definition update_hunger (dino : option DinoData)
    (last_hunger_decrease current_time : F64.float) : option DinoData * F64.float :=
  match dino with
  | None => (None, last_hunger_decrease)
  | Some d =>
      if SFltb (F64.of_Z 5) (F64.sub current_time last_hunger_decrease) then
        (Some (with_stats d (PyDict.set (stats d) "hunger" (Z.max 0 (hunger_of d - 1)))),
         current_time)
      else (Some d, last_hunger_decrease)
  end.

(** The loop of lines 302-305 in [DinoPet.update_physics], over the
    keys that [current_frames] has when the loop starts. *)
Fixpoint advance_keys (keys : list string) (dino : DinoData)
    (current_variants : PyDict.dict string (option string))
    (current_frames : PyDict.dict string Z) (frame_counter : F64.float)
    : PyDict.dict string Z * option exn :=
  match keys with
  | [] => (current_frames, None)
  | part_name :: rest =>
      match get_part_frames dino part_name
              (default None (PyDict.get current_variants part_name)) with
      | Some part_frames =>
          if 1 <? frame_count part_frames then
            match py_int frame_counter with
            | Ok n =>
                advance_keys rest dino current_variants
                  (PyDict.set current_frames part_name (n mod frame_count part_frames))
                  frame_counter
            | Raise e => (current_frames, Some e)
            end
          else advance_keys rest dino current_variants current_frames frame_counter
      | None => advance_keys rest dino current_variants current_frames frame_counter
      end
  end.

(** Lines 300-305, taken when the dinosaur is moving: the frame
    counter advances by [dt * 10], then the loop runs.  The result is
    [current_frames] and [frame_counter] after it, with the exception
    when the loop ends by one. *)
Definition advance_frames (dino : DinoData)
    (current_variants : PyDict.dict string (option string))
    (current_frames : PyDict.dict string Z) (frame_counter dt : F64.float)
    : PyDict.dict string Z * F64.float * option exn :=
  let frame_counter :=
    SFadd F64.prec F64.emax frame_counter (F64.mul dt (F64.of_Z 10)) in
  let '(current_frames, e) :=
    advance_keys (PyDict.keys current_frames) dino current_variants current_frames
      frame_counter in
  (current_frames, frame_counter, e).

(** [DinoPet.render], lines 321-334: the buffer is cleared to sky blue,
    then the dinosaur, if there is one, is drawn. *)
Definition pet_render (canvas_buffer : ndarray) (dino : option DinoData)
    (dino_x dino_y : F64.float) (current_variants : PyDict.dict string (option string))
    (current_frames : PyDict.dict string Z) (dino_flip : bool) (dino_scale : F64.float)
    : ndarray * option exn :=
  let canvas_buffer := clear_canvas canvas_buffer (135, 206, 235, 255) in
  match dino with
  | Some d =>
      render_dinosaur canvas_buffer d dino_x dino_y current_variants current_frames
        dino_flip dino_scale
  | None => (canvas_buffer, None)
  end.

(** * Vocabulary of the properties *)

(** ** Names *)

(** What step 2 of the parser makes of the stem that is left once the
    frame suffix is removed. *)
Definition base_of (stem : string) : string :=
  List.hd EmptyString (PyStr.split1 "_" stem).

(** The variant that the same step reads from it. *)
Definition variant_of (stem : string) : option string :=
  match PyStr.split1 "_" stem with
  | _ :: v :: _ => Some v
  | _ => None
  end.

(** ** Trees and listings *)

(** The dictionaries of a tree have unique keys. *)
Definition tree_wf (dino : DinoData) : Prop :=
  PyDict.wf (parts dino) /\
  forall p vm, PyDict.get (parts dino) p = Some vm -> PyDict.wf vm.

(** The invariant of the data model: a part has at least one variant
    entry, and a variant entry holds at least one frame. *)
Definition tree_inv (dino : DinoData) : Prop :=
  forall p vm, PyDict.get (parts dino) p = Some vm ->
    vm <> [] /\
    forall v seq, PyDict.get vm v = Some seq -> frames seq <> [].

(** Every sequence records as its variant the key it is stored under,
    as [add_part] makes it. *)
Definition tree_keyed (dino : DinoData) : Prop :=
  forall p vm v seq,
    PyDict.get (parts dino) p = Some vm -> PyDict.get vm v = Some seq ->
    pf_variant seq = v.

(** The variant dictionary of a part, empty when the part is missing. *)
Definition variants_of (dino : DinoData) (p : string) : variant_map :=
  default [] (PyDict.get (parts dino) p).

(** The sequence a new frame of [(p, v)] is appended to. *)
Definition seq_of (dino : DinoData) (p : string) (v : option string) : DinoPartFrames :=
  default (DinoPartFrames_init p v) (PyDict.get (variants_of dino p) v).

(** A listing in which the codec accepts every file. *)
Definition decoded (files : list (Path * ndarray)) : list (Path * option ndarray) :=
  map (fun entry => (fst entry, Some (snd entry))) files.

(** The part, variant and frame index that the bare file name gives. *)
Definition add_by_bare_name (new_path : Path) (dino : DinoData)
    (entry : Path * ndarray) : DinoData :=
  let '(base_name, variant, frame_num) := parse_filename (name (fst entry)) in
  add_part dino base_name variant
    (DinoImage_init (new_path ++ fst entry) (snd entry) None) frame_num.

(** Construction from a single file as the specification words it:
    one part, named by the stem of the file, with a single "no
    variant" entry of one frame. *)
Definition single_file_part_named_by_stem (path : Path) (rgba : ndarray) : Prop :=
  exists dino seq,
    load_dinosaur path (FsFile (Some rgba)) = Ok dino /\
    parts dino = [(stem path, [(None, seq)])] /\
    length (frames seq) = 1%nat.

(** ** Canvas and rendering *)

(** The pixel of an array at row [r] and column [c]. *)
Definition pixel_at (a : ndarray) (r c : Z) : option pixel :=
  if (0 <=? r) && (0 <=? c) then
    match cells a !! Z.to_nat r with
    | Some row => row !! Z.to_nat c
    | None => None
    end
  else None.

(** The placed source and the canvas share a pixel position. *)
Definition rect_overlaps_canvas (canvas src : ndarray) (dst_x dst_y : Z) : Prop :=
  exists cx cy,
    0 <= cx < shape1 canvas /\ 0 <= cy < shape0 canvas /\
    dst_x <= cx < dst_x + shape1 src /\ dst_y <= cy < dst_y + shape0 src.

(** The float is [+0.0]. *)
Definition is_pos_zero (x : spec_float) : bool :=
  match x with
  | S754_zero false => true
  | _ => false
  end.

(** [alpha_src] of a source pixel whose alpha is 0. *)
Definition alpha_zero : F32.float := F32.div (F32.of_Z 0) (F32.of_Z 255).

(** The variant that the caller selected for a part:
    [current_variants.get(part_name)]. *)
Definition selected_variant (current_variants : PyDict.dict string (option string))
    (part_name : string) : option string :=
  default None (PyDict.get current_variants part_name).

(** What the canvas becomes when one part is handled and its frame, if
    it has one, can be placed. *)
Definition draw_part (dino_data : DinoData) (x y : F64.float)
    (current_variants : PyDict.dict string (option string))
    (current_frames : PyDict.dict string Z) (flip_h : bool) (scale : F64.float)
    (canvas : ndarray) (part_name : string) : ndarray :=
  match part_action_of dino_data current_variants current_frames part_name with
  | Draw image =>
      match place_source image x y flip_h false scale with
      | Ok (src, dst_x, dst_y) => blit canvas src dst_x dst_y
      | Raise _ => canvas
      end
  | _ => canvas
  end.

(** ** Small trees and images used as examples *)

(** An image of one opaque red pixel, anchored at its centre. *)
Definition red_dot : DinoImage :=
  DinoImage_init ["dot.png"] (NdArray 1 1 [[Pixel 255 0 0 255]]) None.

(** A transparent canvas of two rows and two columns. *)
Definition blank2 : ndarray :=
  NdArray 2 2 [[Pixel 0 0 0 0; Pixel 0 0 0 0]; [Pixel 0 0 0 0; Pixel 0 0 0 0]].

(** A tree whose only part, "head", has a "no variant" entry. *)
Definition head_only : DinoData :=
  MkDinoData "rex" ["rex"]
    [("head", [(None, MkDinoPartFrames "head" None
                        [DinoImage_init ["rex"; "head.png"]
                           (NdArray 1 1 [[Pixel 0 255 0 255]]) None])])]
    [("hunger", 50)].

(** A tree with the single part "dino". *)
Definition dino_only : DinoData :=
  MkDinoData "rex" ["rex"]
    [("dino", [(None, MkDinoPartFrames "dino" None [red_dot])])] [("hunger", 50)].

(** ** Vocabulary of the further properties *)

(** The sequence stored under exactly the key [v] of part [p]. *)
Definition stored (dino : DinoData) (p : string) (v : option string)
    : option DinoPartFrames :=
  PyDict.get (variants_of dino p) v.

(** Its frames; none when there is no such entry. *)
Definition stored_frames (dino : DinoData) (p : string) (v : option string)
    : list DinoImage :=
  match stored dino p v with
  | Some seq => frames seq
  | None => []
  end.

(** The character [c] occurs in [s]. *)
Fixpoint has_char (c : ascii) (s : string) : bool :=
  match s with
  | EmptyString => false
  | String a r => Ascii.eqb a c || has_char c r
  end.

(** The part and the variant that the directory scan of
    [load_dinosaur] gives the file at a relative path, by the depth of
    the path: a file at the top is placed by its own name; below a
    directory the part is that directory, and the variant is the next
    directory when there is one, else the variant in the file name. *)
Definition load_target (relative : Path) : string * option string :=
  match relative with
  | [] => (EmptyString, None)
  | [file] => fst (parse_filename file)
  | [part; file] => (part, snd (fst (parse_filename file)))
  | part :: dir :: _ => (part, Some dir)
  end.

(** The image that a scan rooted at [path] makes of a decoded file. *)
Definition loaded_image (path : Path) (entry : Path * ndarray) : DinoImage :=
  DinoImage_init (path ++ fst entry) (snd entry) None.

(** One step of a scan in which every file decodes. *)
Definition scan_step (path : Path) (dino : DinoData) (entry : Path * ndarray) : DinoData :=
  add_part dino (fst (load_target (fst entry))) (snd (load_target (fst entry)))
    (loaded_image path entry) (snd (parse_filename (name (fst entry)))).

(** A tree whose part "head" has a "no variant" entry and a variant
    "original". *)
Definition head_with_original : DinoData :=
  MkDinoData "rex" ["rex"]
    [("head",
      [(None, MkDinoPartFrames "head" None
                [DinoImage_init ["rex"; "head.png"] (NdArray 1 1 [[Pixel 0 255 0 255]]) None]);
       (Some "original", MkDinoPartFrames "head" (Some "original")
                [DinoImage_init ["rex"; "head_original.png"]
                   (NdArray 1 1 [[Pixel 0 0 255 255]]) None])])]
    [("hunger", 50)].

(** [alpha_src] of a source pixel whose alpha is 255. *)
Definition alpha_one : F32.float := F32.div (F32.of_Z 255) (F32.of_Z 255).

(** The values that the host's [current_frames] can take: it is
    created empty (line 41), emptied again by [hatch_new] (line 186),
    and otherwise written only by the loop of [update_physics]. *)
Inductive host_frames : PyDict.dict string Z -> Prop :=
| host_frames_empty : host_frames []
| host_frames_step dino current_variants current_frames frame_counter dt :
    host_frames current_frames ->
    host_frames
      (fst (fst (advance_frames dino current_variants current_frames frame_counter dt))).

(** The colour to which the host clears its buffer. *)
Definition sky_blue : pixel := Pixel 135 206 235 255.

(** Every alpha of an array is a byte. *)
Definition alpha_bytes (a : ndarray) : Prop :=
  forall r c s, pixel_at a r c = Some s -> 0 <= chA s < 256.

(** Every pixel of an array is fully opaque. *)
Definition opaque (a : ndarray) : Prop :=
  forall r c d, pixel_at a r c = Some d -> chA d = 255.

(** The images of a tree are well-shaped arrays whose alphas are
    bytes, as [np.array(img, dtype=np.uint8)] makes them. *)
Definition tree_images_ok (dino : DinoData) : Prop :=
  forall p vm v seq img,
    PyDict.get (parts dino) p = Some vm -> PyDict.get vm v = Some seq ->
    img ∈ frames seq ->
    ndarray_wf (rgba_data img) /\ alpha_bytes (rgba_data img).

(** * Properties *)

(** ** The filename parser *)

Section NameParser.
Import PyStr.

Lemma digits_dollar_eq (c : ascii) (r : string) :
  digits_dollar (String c r) =
  if is_digit c then
    match r with
    | EmptyString => Some (String c EmptyString)
    | String c' r' =>
        if is_digit c' then
          match digits_dollar r with
          | Some d => Some (String c d)
          | None => None
          end
        else if Ascii.eqb c' newline then
          match r' with
          | EmptyString => Some (String c EmptyString)
          | _ => None
          end
        else None
    end
  else None.
Proof. reflexivity. Qed.

Lemma digits_dollar_run (d : string) :
  d <> EmptyString -> all_digits d = true -> digits_dollar d = Some d.
Proof.
  induction d as [|c r IH]; [congruence|].
  intros _ Hd. cbn in Hd. apply andb_prop in Hd as [Hc Hr].
  rewrite digits_dollar_eq, Hc.
  destruct r as [|c' r']; [reflexivity|].
  pose proof Hr as Hr'. cbn in Hr'. apply andb_prop in Hr' as [Hc' _].
  rewrite Hc', IH; [reflexivity|congruence|exact Hr].
Qed.

(** A digit run cannot reach the end of the stem across an
    underscore. *)
Lemma digits_dollar_blocked (s d : string) :
  d <> EmptyString -> digits_dollar (s ++ String "_" d)%string = None.
Proof.
  intros Hd. induction s as [|a r IH]; [reflexivity|].
  change (String a r ++ String "_" d)%string
    with (String a (r ++ String "_" d))%string.
  rewrite digits_dollar_eq.
  destruct (is_digit a); [|reflexivity].
  destruct r as [|c' r'].
  - reflexivity.
  - change (String c' r' ++ String "_" d)%string
      with (String c' (r' ++ String "_" d))%string in IH |- *.
    rewrite IH.
    destruct (is_digit c'); [reflexivity|].
    destruct (Ascii.eqb c' newline); [|reflexivity].
    destruct r'; [destruct d; [congruence|reflexivity] | reflexivity].
Qed.

Lemma search_frame_eq (c : ascii) (r : string) :
  search_frame (String c r) =
  let later :=
    match search_frame r with
    | Some (pre, d) => Some (String c pre, d)
    | None => None
    end in
  if Ascii.eqb c "_" then
    match digits_dollar r with
    | Some d => Some (EmptyString, d)
    | None => later
    end
  else later.
Proof. reflexivity. Qed.

Lemma search_frame_suffix (s d : string) :
  d <> EmptyString -> all_digits d = true ->
  search_frame (s ++ String "_" d)%string = Some (s, d).
Proof.
  intros Hne Hd. induction s as [|a r IH].
  - change (search_frame (String "_" d) = Some (EmptyString, d)).
    rewrite search_frame_eq, digits_dollar_run by assumption. reflexivity.
  - change (String a r ++ String "_" d)%string
      with (String a (r ++ String "_" d))%string.
    rewrite search_frame_eq, IH. cbv zeta.
    destruct (Ascii.eqb a "_"); [|reflexivity].
    now rewrite digits_dollar_blocked.
Qed.

End NameParser.

Lemma parse_stem_frame_suffix (s d : string) :
  d <> EmptyString -> PyStr.all_digits d = true ->
  parse_stem (s ++ String "_" d)%string = (base_of s, variant_of s, Some (PyStr.int d)).
Proof.
  intros Hne Hd. unfold parse_stem. now rewrite search_frame_suffix.
Qed.

(** C8. The parser gives (dino, none, none) for "dino", (legs, none, 1)
    for "legs_01", (head, happy, none) for "head_happy" and
    (legs, blue, 3) for "legs_blue_03"; and whenever a stem ends in an
    underscore followed by a non-empty run of ASCII digits, that run is
    the frame index, and the base name and the variant are read from
    what precedes the underscore. *)
Theorem parse_filename_frame_suffix :
  parse_filename "dino" = ("dino", None, None) /\
  parse_filename "legs_01" = ("legs", None, Some 1) /\
  parse_filename "head_happy" = ("head", Some "happy", None) /\
  parse_filename "legs_blue_03" = ("legs", Some "blue", Some 3) /\
  forall filename s d : string,
    PyPath.stem (PyPath.of_string filename) = (s ++ String "_" d)%string ->
    d <> EmptyString -> PyStr.all_digits d = true ->
    parse_filename filename = (base_of s, variant_of s, Some (PyStr.int d)).
Proof.
  repeat split; try reflexivity.
  intros filename s d Hstem Hne Hd. unfold parse_filename.
  rewrite Hstem. now apply parse_stem_frame_suffix.
Qed.

Lemma parse_filename_frame_suffix_witness :
  PyPath.stem (PyPath.of_string "legs_blue_03.png") = ("legs_blue" ++ String "_" "03")%string /\
  parse_filename "legs_blue_03.png" = ("legs", Some "blue", Some 3).
Proof.
  split; [reflexivity|].
  apply (proj2 (proj2 (proj2 (proj2 parse_filename_frame_suffix)))
           "legs_blue_03.png" "legs_blue" "03");
    [reflexivity | discriminate | reflexivity].
Defined.

(** The examples of the docstring, with the extension. *)
Example parse_filename_doc :
  parse_filename "dino.png" = ("dino", None, None) /\
  parse_filename "legs_01.png" = ("legs", None, Some 1) /\
  parse_filename "head_happy.png" = ("head", Some "happy", None) /\
  parse_filename "legs_blue_03.png" = ("legs", Some "blue", Some 3).
Proof. repeat split; reflexivity. Qed.

(** A variant made of digits only is possible when it is not last. *)
Example parse_filename_digit_variant :
  parse_filename "legs_01_02.png" = ("legs", Some "01", Some 2).
Proof. reflexivity. Qed.

(** ** Frame sequences *)

(** C7. For a sequence of N > 0 frames and every k >= 0, [get_frame k]
    and [get_frame (k + N)] both return the frame at position k mod N;
    the lookup succeeds without any bound on k. *)
Theorem get_frame_cyclic (seq : DinoPartFrames) (k : Z) :
  0 < frame_count seq -> 0 <= k ->
  exists image,
    frames seq !! Z.to_nat (k mod frame_count seq) = Some image /\
    get_frame seq k = Ok image /\
    get_frame seq (k + frame_count seq) = Ok image.
Proof.
  unfold frame_count, get_frame. intros HN Hk.
  set (N := Z.of_nat (length (frames seq))) in *.
  assert (Hmod : (k + N) mod N = k mod N).
  { rewrite <- (Z.mul_1_l N) at 1. apply Z.mod_add. lia. }
  destruct (lookup_lt_is_Some_2 (frames seq) (Z.to_nat (k mod N))) as [image Himg].
  { pose proof (Z.mod_pos_bound k N HN). lia. }
  exists image. rewrite Hmod, Himg.
  destruct (frames seq); [cbn in N; lia|]. auto.
Qed.

Lemma get_frame_cyclic_witness :
  let seq := MkDinoPartFrames "legs" None
    [DinoImage_init ["legs_01.png"] (NdArray 1 1 [[Pixel 1 2 3 255]]) None;
     DinoImage_init ["legs_02.png"] (NdArray 1 1 [[Pixel 4 5 6 255]]) None] in
  exists image,
    frames seq !! Z.to_nat (3 mod frame_count seq) = Some image /\
    get_frame seq 3 = Ok image /\
    get_frame seq (3 + frame_count seq) = Ok image.
Proof.
  intros seq. apply (get_frame_cyclic seq 3); [reflexivity | lia].
Defined.

(** The wrap-around also serves negative indices. *)
Lemma get_frame_total (seq : DinoPartFrames) (k : Z) :
  frames seq <> [] -> exists image, get_frame seq k = Ok image.
Proof.
  intros Hne. unfold get_frame.
  destruct (lookup_lt_is_Some_2 (frames seq)
              (Z.to_nat (k mod Z.of_nat (length (frames seq))))) as [image Himg].
  { assert (0 < Z.of_nat (length (frames seq))) as HN
      by (destruct (frames seq); [congruence | cbn; lia]).
    pose proof (Z.mod_pos_bound k _ HN). lia. }
  exists image. rewrite Himg. destruct (frames seq); [congruence | reflexivity].
Qed.

(** ** Dictionaries *)

Section DictFacts.
Context {K V : Type} `{EqDecision K}.
Implicit Types (d : PyDict.dict K V) (k : K) (v : V).

Lemma get_set_eq d k v : PyDict.get (PyDict.set d k v) k = Some v.
Proof.
  induction d as [|[k' v'] r IH]; cbn.
  - now rewrite decide_True.
  - destruct (decide (k' = k)) as [->|Hne]; cbn.
    + now rewrite decide_True.
    + now rewrite decide_False.
Qed.

Lemma get_set_ne d k k' v :
  k <> k' -> PyDict.get (PyDict.set d k v) k' = PyDict.get d k'.
Proof.
  intros Hne. induction d as [|[k0 v0] r IH]; cbn.
  - now rewrite decide_False.
  - destruct (decide (k0 = k)) as [->|Hk0]; cbn.
    + now rewrite !decide_False.
    + now rewrite IH.
Qed.

Lemma set_set d k v v' :
  PyDict.set (PyDict.set d k v) k v' = PyDict.set d k v'.
Proof.
  induction d as [|[k0 v0] r IH]; cbn.
  - now rewrite decide_True.
  - destruct (decide (k0 = k)) as [->|Hk0]; cbn.
    + now rewrite decide_True.
    + now rewrite decide_False, IH.
Qed.

Lemma set_not_nil d k v : PyDict.set d k v <> [].
Proof. destruct d as [|[k0 v0] r]; cbn; [|destruct (decide (k0 = k))]; discriminate. Qed.

Lemma get_None_keys d k : PyDict.get d k = None <-> k ∉ PyDict.keys d.
Proof.
  induction d as [|[k0 v0] r IH]; cbn.
  - split; [intros _; apply not_elem_of_nil | reflexivity].
  - rewrite not_elem_of_cons. destruct (decide (k0 = k)) as [->|Hk0].
    + split; [discriminate | intros [Hk _]; congruence].
    + rewrite IH. split; [intros Hr; split; [congruence | exact Hr] | tauto].
Qed.

Lemma contains_true d k : PyDict.contains d k = true <-> is_Some (PyDict.get d k).
Proof.
  unfold PyDict.contains. destruct (PyDict.get d k); split; intros Hx;
    try reflexivity; try discriminate; eauto.
  destruct Hx as [? Hx]. discriminate.
Qed.

(** Assignment to a key that is present keeps the order of the keys;
    assignment to a new key puts it last. *)
Lemma keys_set_present d k v :
  is_Some (PyDict.get d k) -> PyDict.keys (PyDict.set d k v) = PyDict.keys d.
Proof.
  induction d as [|[k0 v0] r IH]; cbn; intros [x Hx]; [discriminate|].
  destruct (decide (k0 = k)) as [->|Hk0]; cbn; [reflexivity|].
  unfold PyDict.keys in IH. rewrite IH; eauto.
Qed.

Lemma keys_set_new d k v :
  PyDict.get d k = None -> PyDict.keys (PyDict.set d k v) = PyDict.keys d ++ [k].
Proof.
  induction d as [|[k0 v0] r IH]; cbn; intros Hx; [reflexivity|].
  destruct (decide (k0 = k)) as [->|Hk0]; [discriminate|]; cbn.
  unfold PyDict.keys in IH. now rewrite IH.
Qed.

Lemma wf_set d k v : PyDict.wf d -> PyDict.wf (PyDict.set d k v).
Proof.
  unfold PyDict.wf. intros Hwf.
  destruct (PyDict.get d k) as [x|] eqn:Hx.
  - rewrite keys_set_present; eauto.
  - rewrite keys_set_new by assumption.
    apply NoDup_app. split; [exact Hwf|]. split.
    + intros k' Hin Hk'. apply list_elem_of_singleton in Hk' as ->.
      now apply get_None_keys in Hx.
    + apply NoDup_singleton.
Qed.

(** The first key of a dictionary that has one is not moved by an
    assignment. *)
Lemma head_keys_set d k v :
  d <> [] -> head (PyDict.keys (PyDict.set d k v)) = head (PyDict.keys d).
Proof.
  destruct d as [|[k0 v0] r]; [congruence|]. intros _. cbn.
  destruct (decide (k0 = k)); reflexivity.
Qed.

Lemma del_present d k :
  PyDict.wf d -> is_Some (PyDict.get d k) ->
  exists d', PyDict.del d k = Ok d' /\
             PyDict.wf d' /\
             PyDict.get d' k = None /\
             (forall k', k' <> k -> PyDict.get d' k' = PyDict.get d k').
Proof.
  unfold PyDict.wf.
  induction d as [|[k0 v0] r IH]; cbn; intros Hwf [x Hx]; [discriminate|].
  apply NoDup_cons in Hwf as [Hk0 Hwf].
  destruct (decide (k0 = k)) as [->|Hne].
  - exists r. repeat split; try assumption.
    + now apply get_None_keys.
    + intros k' Hk'. now rewrite decide_False.
  - destruct (IH Hwf) as (r' & Hdel & Hwf' & Hget & Hother); [eauto|].
    exists ((k0, v0) :: r'). rewrite Hdel. cbn. repeat split.
    + apply NoDup_cons. split; [|exact Hwf'].
      apply get_None_keys. rewrite Hother by congruence.
      now apply get_None_keys.
    + now rewrite decide_False.
    + intros k' Hk'. destruct (decide (k0 = k')); [reflexivity|]. now apply Hother.
Qed.

Lemma del_not_nil d d' k k' :
  PyDict.del d k = Ok d' -> k' <> k -> is_Some (PyDict.get d k') -> d' <> [].
Proof.
  revert d'. induction d as [|[k0 v0] r IH]; cbn; intros d' Hdel Hne [x Hx];
    [discriminate|].
  destruct (decide (k0 = k)) as [->|Hk0].
  - rewrite decide_False in Hx by congruence. injection Hdel as <-.
    destruct r; [discriminate | discriminate].
  - destruct (PyDict.del r k); [injection Hdel as <-; discriminate | discriminate].
Qed.

End DictFacts.

(** ** Asset trees *)

Lemma add_part_parts dino p v img f :
  parts (add_part dino p v img f) =
  PyDict.set (parts dino) p
    (PyDict.set (variants_of dino p) v (add_frame (seq_of dino p v) img)).
Proof.
  unfold add_part, seq_of, variants_of, PyDict.contains. cbn.
  destruct (PyDict.get (parts dino) p) as [vm|] eqn:Hp; cbn.
  - rewrite Hp. cbn.
    destruct (PyDict.get vm v) as [seq|] eqn:Hv; cbn.
    + now rewrite Hv.
    + now rewrite get_set_eq, set_set.
  - rewrite get_set_eq. cbn. rewrite !decide_True by reflexivity. cbn.
    now rewrite set_set.
Qed.

Lemma add_part_get dino p v img f q :
  PyDict.get (parts (add_part dino p v img f)) q =
  if decide (p = q)
  then Some (PyDict.set (variants_of dino p) v (add_frame (seq_of dino p v) img))
  else PyDict.get (parts dino) q.
Proof.
  rewrite add_part_parts. destruct (decide (p = q)) as [->|Hne].
  - apply get_set_eq.
  - now apply get_set_ne.
Qed.

Lemma variants_of_wf dino p : tree_wf dino -> PyDict.wf (variants_of dino p).
Proof.
  intros [_ Hvm]. unfold variants_of.
  destruct (PyDict.get (parts dino) p) eqn:Hp; cbn; [eauto | apply NoDup_nil_2].
Qed.

Lemma add_part_wf dino p v img f : tree_wf dino -> tree_wf (add_part dino p v img f).
Proof.
  intros Hwf. split.
  - rewrite add_part_parts. apply wf_set, Hwf.
  - intros q vm. rewrite add_part_get. destruct (decide (p = q)) as [->|Hne].
    + intros [= <-]. apply wf_set, variants_of_wf, Hwf.
    + apply Hwf.
Qed.

Lemma add_frame_not_nil seq img : frames (add_frame seq img) <> [].
Proof. cbn. destruct (frames seq); discriminate. Qed.

Lemma add_part_inv dino p v img f : tree_inv dino -> tree_inv (add_part dino p v img f).
Proof.
  intros Hinv q vm. rewrite add_part_get. destruct (decide (p = q)) as [->|Hne].
  - intros [= <-]. split; [apply set_not_nil|].
    intros v' seq. destruct (decide (v = v')) as [->|Hv].
    + rewrite get_set_eq. intros [= <-]. apply add_frame_not_nil.
    + rewrite get_set_ne by assumption. unfold variants_of.
      destruct (PyDict.get (parts dino) q) as [vm|] eqn:Hq; cbn; [|discriminate].
      apply (Hinv q vm Hq).
  - apply Hinv.
Qed.

Lemma DinoData_init_wf n b : tree_wf (DinoData_init n b).
Proof. split; [apply NoDup_nil_2 | discriminate]. Qed.

Lemma DinoData_init_inv n b : tree_inv (DinoData_init n b).
Proof. intros p vm. discriminate. Qed.

(** ** Variant resolution *)

(** C4. Resolution returns the requested variant's sequence when that
    key is present; otherwise the "no variant" entry when present;
    otherwise the first-inserted entry when the part has one; and, on a
    tree in which every part has an entry, it returns nothing exactly
    when the part is not in the tree. *)
Theorem get_part_frames_fallback (dino : DinoData) (part_name : string)
    (variant : option string) :
  tree_inv dino ->
  (forall vm seq,
     PyDict.get (parts dino) part_name = Some vm ->
     PyDict.get vm variant = Some seq ->
     get_part_frames dino part_name variant = Some seq) /\
  (forall vm seq,
     PyDict.get (parts dino) part_name = Some vm ->
     PyDict.get vm variant = None ->
     PyDict.get vm None = Some seq ->
     get_part_frames dino part_name variant = Some seq) /\
  (forall vm seq,
     PyDict.get (parts dino) part_name = Some vm ->
     PyDict.get vm variant = None ->
     PyDict.get vm None = None ->
     head (PyDict.values vm) = Some seq ->
     get_part_frames dino part_name variant = Some seq) /\
  (get_part_frames dino part_name variant = None <->
   PyDict.get (parts dino) part_name = None).
Proof.
  intros Hinv. unfold get_part_frames. repeat split.
  - intros vm seq -> Hv. now rewrite Hv.
  - intros vm seq -> Hv Hd. now rewrite Hv, Hd.
  - intros vm seq -> Hv Hd Hh. rewrite Hv, Hd.
    destruct (PyDict.values vm); [discriminate | exact Hh].
  - destruct (PyDict.get (parts dino) part_name) as [vm|] eqn:Hp; [|reflexivity].
    destruct (PyDict.get vm variant); [discriminate|].
    destruct (PyDict.get vm None); [discriminate|].
    destruct (Hinv _ _ Hp) as [Hne _].
    destruct vm as [|[k seq] r]; [congruence | discriminate].
  - intros ->. reflexivity.
Qed.

Lemma get_part_frames_fallback_witness :
  let seq := MkDinoPartFrames "legs" (Some "blue")
    [DinoImage_init ["legs"; "blue_01.png"] (NdArray 1 1 [[Pixel 0 0 255 255]]) None] in
  let dino := MkDinoData "rex" ["rex"] [("legs", [(Some "blue", seq)])] [("hunger", 50)] in
  get_part_frames dino "legs" (Some "green") = Some seq /\
  (get_part_frames dino "head" None = None <-> PyDict.get (parts dino) "head" = None).
Proof.
  intros seq dino.
  assert (Hinv : tree_inv dino).
  { intros p vm. cbn. destruct (decide ("legs" = p)); [|discriminate].
    intros [= <-]. split; [discriminate|].
    intros v s. cbn. destruct (decide (Some "blue" = v)); [|discriminate].
    intros [= <-]. discriminate. }
  split.
  - apply (proj1 (proj2 (proj2 (get_part_frames_fallback dino "legs" (Some "green") Hinv)))
             [(Some "blue", seq)] seq); reflexivity.
  - apply (proj2 (proj2 (proj2 (get_part_frames_fallback dino "head" None Hinv)))).
Defined.

(** Without the invariant, a part with an empty variant dictionary also
    resolves to nothing. *)
Lemma get_part_frames_None (dino : DinoData) (part_name : string) (variant : option string) :
  get_part_frames dino part_name variant = None <->
  PyDict.get (parts dino) part_name = None \/ PyDict.get (parts dino) part_name = Some [].
Proof.
  unfold get_part_frames.
  destruct (PyDict.get (parts dino) part_name) as [vm|] eqn:Hp; [|tauto].
  destruct vm as [|[k seq] r].
  - cbn. tauto.
  - split; [|intros [?|?]; discriminate].
    cbn. destruct (decide (k = variant)); [discriminate|].
    destruct (PyDict.get r variant); [discriminate|].
    destruct (decide (k = None)); [discriminate|].
    destruct (PyDict.get r None); discriminate.
Qed.

(** ** Construction from a single file *)

(** C3 as stated fails: for a file that is not called [dino], the part
    is not named by the stem. *)
Lemma load_single_file_part_name_differs :
  ~ single_file_part_named_by_stem ["rex.png"] (NdArray 1 1 [[Pixel 255 0 0 255]]).
Proof.
  intros (dino & seq & Hload & Hparts & _).
  cbn in Hload. injection Hload as <-. cbn in Hparts. discriminate.
Qed.

(** C3, amended. For every single file that the codec decodes, the
    tree has exactly one part, named "dino" whatever the file is
    called, with a single "no variant" entry whose sequence holds
    exactly one frame, the loaded image; the stem of the file is the
    name of the tree. *)
Theorem load_single_file (path : Path) (rgba : ndarray) :
  exists dino seq,
    load_dinosaur path (FsFile (Some rgba)) = Ok dino /\
    dino_name dino = stem path /\
    parts dino = [("dino", [(None, seq)])] /\
    frames seq = [DinoImage_init path rgba None].
Proof.
  eexists. eexists. cbn. repeat split.
Qed.

(** ** Incremental merge *)

Lemma merge_image_collision dino p variant f img vm existing :
  tree_wf dino ->
  PyDict.get (parts dino) p = Some vm ->
  PyDict.get vm None = Some existing ->
  exists vm2,
    PyDict.wf vm2 /\
    PyDict.get vm2 None = None /\
    PyDict.get vm2 (Some "original") = Some existing /\
    (forall v, v <> None -> v <> Some "original" -> PyDict.get vm2 v = PyDict.get vm v) /\
    merge_image dino p variant f img =
      (add_part (with_parts dino (PyDict.set (parts dino) p vm2)) p
         (Some (default "default" variant)) img f, None).
Proof.
  intros [Hwf Hvms] Hp He.
  destruct (del_present (PyDict.set vm (Some "original") existing) None)
    as (vm2 & Hdel & Hwf2 & Hnone & Hother).
  { apply wf_set. eauto. }
  { rewrite get_set_ne by discriminate. eauto. }
  exists vm2. repeat split; try assumption.
  - rewrite Hother by discriminate. apply get_set_eq.
  - intros v Hv Hv'. rewrite Hother by assumption. now apply get_set_ne.
  - unfold merge_image. rewrite Hp, He, Hdel. now destruct variant.
Qed.

Lemma merge_image_free dino p variant f img :
  PyDict.get (variants_of dino p) None = None ->
  merge_image dino p variant f img = (add_part dino p variant img f, None).
Proof.
  unfold merge_image, variants_of.
  destruct (PyDict.get (parts dino) p) as [vm|]; cbn; [|reflexivity].
  now intros ->.
Qed.

Lemma variants_of_with_parts dino ps p :
  variants_of (with_parts dino ps) p = default [] (PyDict.get ps p).
Proof. reflexivity. Qed.

Lemma variants_of_add_part dino p v img f :
  variants_of (add_part dino p v img f) p =
  PyDict.set (variants_of dino p) v (add_frame (seq_of dino p v) img).
Proof. unfold variants_of at 1. now rewrite add_part_get, decide_True. Qed.

(** C1 as stated fails: the file name parses to the named variant
    "happy", and the "no variant" entry of the target part is
    nevertheless moved to "original". *)
Lemma merge_named_file_moves_default :
  let merged :=
    fst (add_to_dinosaur head_only ["head_happy.png"]
           (FsFile (Some (NdArray 1 1 [[Pixel 255 0 0 255]]))) (Some "head")) in
  parse_filename (name ["head_happy.png"]) = ("head", Some "happy", None) /\
  is_Some (PyDict.get (variants_of head_only "head") None) /\
  PyDict.get (variants_of merged "head") None <>
    PyDict.get (variants_of head_only "head") None /\
  PyDict.keys (variants_of merged "head") = [Some "original"; Some "default"].
Proof.
  cbn. repeat split; [eauto | discriminate].
Qed.

(** C1, amended. In a single-file merge with an explicit target part
    name the file name is not parsed and the incoming image always
    counts as "no variant".  Whenever the part has a "no variant"
    entry, that entry is moved unchanged to the key "original",
    whatever variant the file name would parse to, and the image is
    appended under the key "default"; when the part has no "no
    variant" entry, no entry is moved and the image is appended under
    "no variant". *)
Theorem merge_explicit_part (dino : DinoData) (new_path : Path) (rgba : ndarray)
    (p : string) :
  tree_wf dino ->
  let img := DinoImage_init new_path rgba None in
  let result := add_to_dinosaur dino new_path (FsFile (Some rgba)) (Some p) in
  let before := variants_of dino p in
  let after := variants_of (fst result) p in
  snd result = None /\
  match PyDict.get before None with
  | Some existing =>
      PyDict.get after None = None /\
      PyDict.get after (Some "original") = Some existing /\
      PyDict.get after (Some "default") =
        Some (add_frame (default (DinoPartFrames_init p (Some "default"))
                           (PyDict.get before (Some "default"))) img) /\
      forall v, v <> None -> v <> Some "original" -> v <> Some "default" ->
                PyDict.get after v = PyDict.get before v
  | None =>
      PyDict.get after None = Some (add_frame (DinoPartFrames_init p None) img) /\
      forall v, v <> None -> PyDict.get after v = PyDict.get before v
  end.
Proof.
  intros Hwf img result before after. subst result before after. cbn.
  fold img.
  destruct (PyDict.get (variants_of dino p) None) as [existing|] eqn:He.
  - unfold variants_of in He.
    destruct (PyDict.get (parts dino) p) as [vm|] eqn:Hp; [cbn in He | discriminate].
    destruct (merge_image_collision dino p None None img vm existing Hwf Hp He)
      as (vm2 & Hwf2 & Hnone & Horig & Hother & ->).
    cbn [fst snd default]. split; [reflexivity|].
    rewrite variants_of_add_part, variants_of_with_parts, get_set_eq. cbn [default].
    unfold seq_of. rewrite variants_of_with_parts, get_set_eq. cbn [default].
    unfold variants_of. rewrite Hp. cbn [default].
    repeat split.
    + rewrite get_set_ne by discriminate. exact Hnone.
    + rewrite get_set_ne by discriminate. exact Horig.
    + rewrite get_set_eq. now rewrite Hother by discriminate.
    + intros v Hv Hv' Hv''. rewrite get_set_ne by congruence. now apply Hother.
  - rewrite merge_image_free by assumption. cbn [fst snd]. split; [reflexivity|].
    rewrite variants_of_add_part. unfold seq_of. rewrite He. cbn [default]. split.
    + apply get_set_eq.
    + intros v Hv. apply get_set_ne. congruence.
Qed.

Lemma merge_explicit_part_witness :
  PyDict.keys
    (variants_of
       (fst (add_to_dinosaur head_only ["new.png"]
               (FsFile (Some (NdArray 1 1 [[Pixel 9 9 9 255]]))) (Some "head")))
       "head") = [Some "original"; Some "default"] /\
  snd (add_to_dinosaur head_only ["new.png"]
         (FsFile (Some (NdArray 1 1 [[Pixel 9 9 9 255]]))) (Some "head")) = None.
Proof.
  split; [reflexivity|].
  refine (proj1 (merge_explicit_part head_only ["new.png"]
                   (NdArray 1 1 [[Pixel 9 9 9 255]]) "head" _)).
  split.
  - cbn. apply NoDup_singleton.
  - intros q vm. cbn. destruct (decide ("head" = q)); [|discriminate].
    intros [= <-]. cbn. apply NoDup_singleton.
Defined.

Lemma filter_eq_absent {A : Type} (x : A) `{!forall y : A, Decision (y = x)} (l : list A) :
  x ∉ l -> filter (fun y => y = x) l = [].
Proof.
  induction l as [|y l IH]; [reflexivity|].
  rewrite not_elem_of_cons. intros [Hne Hl].
  rewrite filter_cons_False by congruence. now apply IH.
Qed.

Lemma NoDup_count_le_1 {A : Type} (x : A) `{!forall y : A, Decision (y = x)} (l : list A) :
  NoDup l -> (length (filter (fun y => y = x) l) <= 1)%nat.
Proof.
  induction 1 as [|y l Hy Hl IH]; [cbn; lia|].
  destruct (decide (y = x)) as [Heq|Hne].
  - rewrite filter_cons_True by assumption. subst y. cbn.
    rewrite filter_eq_absent by assumption. cbn. lia.
  - now rewrite filter_cons_False.
Qed.

Lemma merge_image_wf dino p variant f img :
  tree_wf dino -> tree_wf (fst (merge_image dino p variant f img)).
Proof.
  intros Hwf.
  destruct (PyDict.get (variants_of dino p) None) as [existing|] eqn:He.
  - unfold variants_of in He.
    destruct (PyDict.get (parts dino) p) as [vm|] eqn:Hp; [cbn in He | discriminate].
    destruct (merge_image_collision dino p variant f img vm existing Hwf Hp He)
      as (vm2 & Hwf2 & _ & _ & _ & ->).
    cbn [fst]. apply add_part_wf. split; cbn.
    + apply wf_set, Hwf.
    + intros q vm'. destruct (decide (p = q)) as [->|Hne].
      * rewrite get_set_eq. now intros [= <-].
      * rewrite get_set_ne by assumption. apply Hwf.
  - rewrite merge_image_free by assumption. now apply add_part_wf.
Qed.

Lemma merge_image_inv dino p variant f img :
  tree_wf dino -> tree_inv dino -> tree_inv (fst (merge_image dino p variant f img)).
Proof.
  intros Hwf Hinv.
  destruct (PyDict.get (variants_of dino p) None) as [existing|] eqn:He.
  - unfold variants_of in He.
    destruct (PyDict.get (parts dino) p) as [vm|] eqn:Hp; [cbn in He | discriminate].
    destruct (merge_image_collision dino p variant f img vm existing Hwf Hp He)
      as (vm2 & Hwf2 & Hnone & Horig & Hother & ->).
    cbn [fst]. apply add_part_inv. intros q vm'. cbn.
    destruct (decide (p = q)) as [->|Hne].
    + rewrite get_set_eq. intros [= <-]. split.
      * intros ->. discriminate.
      * intros v seq. destruct (decide (v = None)) as [->|Hv]; [congruence|].
        destruct (decide (v = Some "original")) as [->|Hv'].
        -- rewrite Horig. intros [= <-]. apply (proj2 (Hinv q vm Hp) None existing He).
        -- rewrite Hother by assumption. apply (proj2 (Hinv q vm Hp)).
    + rewrite get_set_ne by assumption. apply Hinv.
  - rewrite merge_image_free by assumption. now apply add_part_inv.
Qed.

(** With the "no variant" slot free, the default of a part resolves to
    its first-inserted entry. *)
Lemma get_part_frames_first dino p :
  PyDict.get (variants_of dino p) None = None ->
  variants_of dino p <> [] ->
  exists seq,
    get_part_frames dino p None = Some seq /\
    head (PyDict.values (variants_of dino p)) = Some seq.
Proof.
  unfold variants_of, get_part_frames.
  destruct (PyDict.get (parts dino) p) as [vm|]; cbn; [|congruence].
  intros -> Hne. destruct vm as [|[k seq] r]; [congruence|]. cbn. eauto.
Qed.

(** C2. When a part has a "no variant" entry and a single file is
    merged with that part as its target, the merge succeeds, no part of
    the resulting tree has two "no variant" entries, and resolving the
    default of the target part yields one entry, the first-inserted one
    of the part. *)
Theorem merge_leaves_one_default (dino : DinoData) (new_path : Path) (rgba : ndarray)
    (p : string) :
  tree_wf dino ->
  is_Some (PyDict.get (variants_of dino p) None) ->
  let result := add_to_dinosaur dino new_path (FsFile (Some rgba)) (Some p) in
  snd result = None /\
  (forall q vm, PyDict.get (parts (fst result)) q = Some vm ->
     (length (filter (fun k => k = None) (PyDict.keys vm)) <= 1)%nat) /\
  PyDict.get (variants_of (fst result) p) None = None /\
  exists seq,
    get_part_frames (fst result) p None = Some seq /\
    head (PyDict.values (variants_of (fst result) p)) = Some seq.
Proof.
  intros Hwf Hsome result. subst result. cbn.
  set (img := DinoImage_init new_path rgba None).
  pose proof (merge_image_wf dino p None None img Hwf) as Hwf'.
  destruct Hsome as [existing He]. unfold variants_of in He.
  destruct (PyDict.get (parts dino) p) as [vm|] eqn:Hp; [cbn in He | discriminate].
  destruct (merge_image_collision dino p None None img vm existing Hwf Hp He)
    as (vm2 & Hwf2 & Hnone & Horig & Hother & Hm).
  rewrite Hm in Hwf' |- *. cbn [fst snd default] in Hwf' |- *.
  assert (Hafter : PyDict.get
            (variants_of
               (add_part (with_parts dino (PyDict.set (parts dino) p vm2)) p
                  (Some "default") img None) p) None = None).
  { rewrite variants_of_add_part, variants_of_with_parts, get_set_eq. cbn [default].
    now rewrite get_set_ne by discriminate. }
  split; [reflexivity|]. split; [|split; [exact Hafter|]].
  - intros q vm' Hq. apply NoDup_count_le_1. apply (proj2 Hwf' q vm' Hq).
  - apply get_part_frames_first; [exact Hafter|].
    rewrite variants_of_add_part. apply set_not_nil.
Qed.

Lemma merge_leaves_one_default_witness :
  let result :=
    add_to_dinosaur head_only ["new.png"]
      (FsFile (Some (NdArray 1 1 [[Pixel 9 9 9 255]]))) (Some "head") in
  PyDict.get (variants_of (fst result) "head") None = None /\
  exists seq,
    get_part_frames (fst result) "head" None = Some seq /\
    head (PyDict.values (variants_of (fst result) "head")) = Some seq.
Proof.
  refine (proj2 (proj2 (merge_leaves_one_default head_only ["new.png"]
                          (NdArray 1 1 [[Pixel 9 9 9 255]]) "head" _ _))).
  - split.
    + cbn. apply NoDup_singleton.
    + intros q vm. cbn. destruct (decide ("head" = q)); [|discriminate].
      intros [= <-]. cbn. apply NoDup_singleton.
  - cbn. eauto.
Defined.

(** The same on the sequences themselves: after the merge, the only
    sequence of the target part that records "no variant" is the former
    default, now stored under "original". *)
Lemma merge_one_sequence_without_variant (dino : DinoData) (new_path : Path)
    (rgba : ndarray) (p : string) (v : option string) (seq : DinoPartFrames) :
  tree_wf dino -> tree_keyed dino ->
  is_Some (PyDict.get (variants_of dino p) None) ->
  PyDict.get
    (variants_of (fst (add_to_dinosaur dino new_path (FsFile (Some rgba)) (Some p))) p) v
    = Some seq ->
  pf_variant seq = None -> v = Some "original".
Proof.
  intros Hwf Hkeyed [existing He]. cbn.
  set (img := DinoImage_init new_path rgba None).
  unfold variants_of in He.
  destruct (PyDict.get (parts dino) p) as [vm|] eqn:Hp; [cbn in He | discriminate].
  destruct (merge_image_collision dino p None None img vm existing Hwf Hp He)
    as (vm2 & Hwf2 & Hnone & Horig & Hother & ->).
  cbn [fst default].
  rewrite variants_of_add_part, variants_of_with_parts, get_set_eq. cbn [default].
  unfold seq_of. rewrite variants_of_with_parts, get_set_eq. cbn [default].
  destruct (decide (v = Some "default")) as [->|Hdef].
  - rewrite get_set_eq. intros [= <-]. cbn.
    rewrite Hother by discriminate.
    destruct (PyDict.get vm (Some "default")) as [old|] eqn:Hold; cbn.
    + rewrite (Hkeyed p vm _ old Hp Hold). discriminate.
    + discriminate.
  - rewrite get_set_ne by congruence. change (id vm2) with vm2.
    destruct (decide (v = Some "original")) as [->|Horg]; [reflexivity|].
    destruct (decide (v = None)) as [->|Hv]; [rewrite Hnone; discriminate|].
    rewrite Hother by assumption. intros Hseq Hnv.
    rewrite (Hkeyed p vm v seq Hp Hseq) in Hnv. contradiction.
Qed.

(** The scenario of the specification: a directory holding [dino.png]
    is loaded, then a second file is merged with part [dino] as its
    target.  The first image is found again under "original", the
    second under "default"; the default of the part resolves to the
    first. *)
Example load_then_merge_dino :
  let first := NdArray 1 1 [[Pixel 0 255 0 255]] in
  let second := NdArray 1 1 [[Pixel 255 0 0 255]] in
  exists dino,
    load_dinosaur ["rex"] (FsDir [(["dino.png"], Some first)]) = Ok dino /\
    let merged := fst (add_to_dinosaur dino ["other.png"] (FsFile (Some second)) (Some "dino")) in
    PyDict.keys (variants_of merged "dino") = [Some "original"; Some "default"] /\
    (frames <$> get_part_frames merged "dino" None) =
      Some [DinoImage_init ["rex"; "dino.png"] first None].
Proof. cbn. eexists. split; [reflexivity|]. cbn. split; reflexivity. Qed.

(** ** Directory merge *)

Lemma merge_listing_decoded new_path files : forall dino,
  merge_listing new_path dino (decoded files) =
  (fold_left (add_by_bare_name new_path) files dino, None).
Proof.
  induction files as [|[relative rgba] rest IH]; intros dino; [reflexivity|].
  cbn [decoded map fst snd merge_listing fold_left].
  unfold add_by_bare_name at 2. cbn [fst snd].
  destruct (parse_filename (name relative)) as [[base_name variant] frame_num].
  cbn [from_file]. apply IH.
Qed.

Lemma name_snoc (dirs : Path) (file : string) : name (dirs ++ [file]) = file.
Proof. unfold name. apply last_last. Qed.

(** C10. A directory merge assigns every image file, at any nesting
    depth, the part name, variant and frame index parsed from its bare
    file name; the directories that contain the file play no role.  A
    file [legs/blue_01.png] is merged into the part "blue", whereas
    full construction puts it into the part "legs". *)
Theorem merge_directory_ignores_directories :
  (forall dino new_path files,
     add_to_dinosaur dino new_path (FsDir (decoded files)) None =
     (fold_left (add_by_bare_name new_path) files dino, None)) /\
  (forall dino new_path dirs file rgba,
     parts (add_by_bare_name new_path dino (dirs ++ [file], rgba)) =
     let '(base_name, variant, _) := parse_filename file in
     PyDict.set (parts dino) base_name
       (PyDict.set (variants_of dino base_name) variant
          (add_frame (seq_of dino base_name variant)
             (DinoImage_init (new_path ++ dirs ++ [file]) rgba None)))) /\
  (forall root rgba,
     PyDict.keys
       (parts (fst (add_to_dinosaur (DinoData_init (name root) root) root
                      (FsDir (decoded [(["legs"; "blue_01.png"], rgba)])) None)))
       = ["blue"] /\
     exists dino,
       load_dinosaur root (FsDir (decoded [(["legs"; "blue_01.png"], rgba)])) = Ok dino /\
       PyDict.keys (parts dino) = ["legs"]).
Proof.
  split; [|split].
  - intros dino new_path files. apply merge_listing_decoded.
  - intros dino new_path dirs file rgba. unfold add_by_bare_name. cbn [fst snd].
    rewrite name_snoc.
    destruct (parse_filename file) as [[base_name variant] frame_num].
    apply add_part_parts.
  - intros root rgba. split; [reflexivity|]. eexists. split; reflexivity.
Qed.

(** ** Reachable trees *)

Lemma load_step_ok path dino entry dino' :
  load_step path dino entry = Ok dino' ->
  exists p v img f, dino' = add_part dino p v img f.
Proof.
  destruct entry as [relative content]. unfold load_step.
  destruct (if (length relative =? 1)%nat then _ else _) as [[[p v] f]|e];
    cbn [rbind]; [|discriminate].
  destruct (from_file _ content) as [img|e]; cbn [rbind]; [|discriminate].
  intros [= <-]. eauto.
Qed.

(** Every tree that [load_dinosaur] returns has dictionaries without
    duplicate keys and satisfies the invariant of the data model. *)
Lemma load_dinosaur_inv path node dino :
  load_dinosaur path node = Ok dino -> tree_wf dino /\ tree_inv dino.
Proof.
  destruct node as [content|pngs|]; cbn [load_dinosaur]; [| |discriminate].
  - destruct (from_file path content) as [img|e]; cbn [rbind]; [|discriminate].
    intros [= <-]. split.
    + apply add_part_wf, DinoData_init_wf.
    + apply add_part_inv, DinoData_init_inv.
  - pose proof (DinoData_init_wf (name path) path) as Hwf.
    pose proof (DinoData_init_inv (name path) path) as Hinv.
    revert Hwf Hinv. generalize (DinoData_init (name path) path) as d.
    induction pngs as [|entry rest IH]; intros d Hwf Hinv; cbn [rfoldM].
    + intros [= <-]. now split.
    + destruct (load_step path d entry) as [d'|e] eqn:Hstep; cbn [rbind]; [|discriminate].
      apply load_step_ok in Hstep as (p & v & img & f & ->).
      apply IH; [now apply add_part_wf | now apply add_part_inv].
Qed.

(** The scenario of the specification: a directory with [dino.png],
    [head.png], [legs_01.png] and [legs_02.png] gives the parts dino,
    head and legs, and frame 1 of legs is the image of [legs_02.png]. *)
Example load_legs_frames (a b c d : ndarray) :
  exists dino seq,
    load_dinosaur ["rex"]
      (FsDir (decoded [(["dino.png"], a); (["head.png"], b);
                       (["legs_01.png"], c); (["legs_02.png"], d)])) = Ok dino /\
    PyDict.keys (parts dino) = ["dino"; "head"; "legs"] /\
    get_part_frames dino "legs" None = Some seq /\
    get_frame seq 1 = Ok (DinoImage_init ["rex"; "legs_02.png"] d None).
Proof. eexists. eexists. cbn. repeat split. Qed.

Lemma add_part_keyed dino p v img f :
  tree_keyed dino -> tree_keyed (add_part dino p v img f).
Proof.
  intros Hkeyed q vm v' seq. rewrite add_part_get.
  destruct (decide (p = q)) as [->|Hne]; [|apply Hkeyed].
  intros [= <-]. destruct (decide (v = v')) as [->|Hv].
  - rewrite get_set_eq. intros [= <-]. cbn. unfold seq_of, variants_of.
    destruct (PyDict.get (parts dino) q) as [vm|] eqn:Hq; cbn; [|reflexivity].
    destruct (PyDict.get vm v') as [old|] eqn:Hold; cbn; [|reflexivity].
    apply (Hkeyed q vm v' old Hq Hold).
  - rewrite get_set_ne by assumption. unfold variants_of.
    destruct (PyDict.get (parts dino) q) as [vm|] eqn:Hq; cbn; [|discriminate].
    apply (Hkeyed q vm v' seq Hq).
Qed.

(** In a tree that [load_dinosaur] returns, every sequence records the
    key it is stored under. *)
Lemma load_dinosaur_keyed path node dino :
  load_dinosaur path node = Ok dino -> tree_keyed dino.
Proof.
  assert (Hinit : forall n b, tree_keyed (DinoData_init n b))
    by (intros n b p vm v seq; discriminate).
  destruct node as [content|pngs|]; cbn [load_dinosaur]; [| |discriminate].
  - destruct (from_file path content) as [img|e]; cbn [rbind]; [|discriminate].
    intros [= <-]. apply add_part_keyed, Hinit.
  - specialize (Hinit (name path) path).
    revert Hinit. generalize (DinoData_init (name path) path) as d.
    induction pngs as [|entry rest IH]; intros d Hd; cbn [rfoldM].
    + now intros [= <-].
    + destruct (load_step path d entry) as [d'|e] eqn:Hstep; cbn [rbind]; [|discriminate].
      apply load_step_ok in Hstep as (p & v & img & f & ->).
      apply IH. now apply add_part_keyed.
Qed.

(** Both are kept by [add_to_dinosaur], also when it ends by an
    exception. *)
Lemma add_to_dinosaur_inv dino new_path node part_name :
  tree_wf dino -> tree_inv dino ->
  tree_wf (fst (add_to_dinosaur dino new_path node part_name)) /\
  tree_inv (fst (add_to_dinosaur dino new_path node part_name)).
Proof.
  intros Hwf Hinv. destruct node as [content|pngs|]; cbn [add_to_dinosaur].
  - destruct (match part_name with Some p => _ | None => _ end) as [[p v] f].
    destruct (from_file new_path content) as [img|e]; cbn [fst]; [|now split].
    split; [now apply merge_image_wf | now apply merge_image_inv].
  - revert dino Hwf Hinv. induction pngs as [|[relative content] rest IH];
      intros dino Hwf Hinv; cbn [merge_listing]; [now split|].
    destruct (parse_filename (name relative)) as [[b v] f].
    destruct (from_file _ content) as [img|e]; [|now split].
    apply IH; [now apply add_part_wf | now apply add_part_inv].
  - now split.
Qed.

(** ** Clipping *)

Lemma blit_outside canvas src dst_x dst_y :
  ~ rect_overlaps_canvas canvas src dst_x dst_y ->
  blit canvas src dst_x dst_y = canvas.
Proof.
  intros Hout. unfold blit.
  destruct (_ || _) eqn:Hclip; [reflexivity|].
  exfalso. apply Hout.
  apply orb_false_iff in Hclip as [Hx Hy].
  apply Z.leb_gt in Hx, Hy. cbn in Hx, Hy.
  exists (Z.max 0 dst_x), (Z.max 0 dst_y). lia.
Qed.

(** C6. When the flipped, scaled and anchor-placed source rectangle
    shares no pixel position with the canvas, [composite_image] returns
    normally and the canvas is what it was. *)
Theorem composite_outside_is_noop (canvas : ndarray) (image : DinoImage)
    (x y : F64.float) (flip_h flip_v : bool) (rotation scale : F64.float)
    (src : ndarray) (dst_x dst_y : Z) :
  place_source image x y flip_h flip_v scale = Ok (src, dst_x, dst_y) ->
  ~ rect_overlaps_canvas canvas src dst_x dst_y ->
  composite_image canvas image x y flip_h flip_v rotation scale = Ok canvas.
Proof.
  intros Hplace Hout. unfold composite_image. rewrite Hplace. cbn.
  now rewrite blit_outside.
Qed.

Lemma composite_outside_is_noop_witness :
  composite_image blank2 red_dot (F64.of_Z 100) (F64.of_Z 0) true false
    (F64.of_Z 0) (F64.of_Z 1) = Ok blank2.
Proof.
  apply (composite_outside_is_noop blank2 red_dot (F64.of_Z 100) (F64.of_Z 0)
           true false (F64.of_Z 0) (F64.of_Z 1)
           (NdArray 1 1 [[Pixel 255 0 0 255]]) 99 0).
  - vm_compute. reflexivity.
  - intros (cx & cy & Hcx & Hcy & Hx & Hy). cbn in Hcx, Hx. lia.
Defined.

(** ** Blending *)

Section Slices.
Context {A : Type}.
Implicit Types (l new : list A) (i : nat).

Lemma slice_lookup l lo hi i :
  (i < Z.to_nat (hi - lo))%nat ->
  slice lo hi l !! i = l !! (Z.to_nat lo + i)%nat.
Proof. intros Hi. unfold slice. now rewrite lookup_take_lt, lookup_drop. Qed.

Lemma slice_lookup_ge l lo hi i :
  (Z.to_nat (hi - lo) <= i)%nat -> slice lo hi l !! i = None.
Proof. intros Hi. unfold slice. now apply lookup_take_ge. Qed.

Lemma slice_length l lo hi :
  0 <= lo <= hi -> hi <= Z.of_nat (length l) ->
  length (slice lo hi l) = Z.to_nat (hi - lo).
Proof. intros Hlo Hhi. unfold slice. rewrite length_take, length_drop. lia. Qed.

Lemma splice_lookup l new lo i :
  (Z.to_nat lo + length new <= length l)%nat ->
  splice lo new l !! i =
  if decide (Z.to_nat lo <= i < Z.to_nat lo + length new)%nat
  then new !! (i - Z.to_nat lo)%nat
  else l !! i.
Proof.
  intros Hfit. unfold splice.
  assert (Htake : length (take (Z.to_nat lo) l) = Z.to_nat lo)
    by (rewrite length_take; lia).
  destruct (decide (Z.to_nat lo <= i < Z.to_nat lo + length new)%nat) as [Hin|Hout].
  - rewrite lookup_app_r by lia. rewrite Htake. apply lookup_app_l. lia.
  - destruct (decide (i < Z.to_nat lo)%nat) as [Hlt|Hge].
    + rewrite lookup_app_l by lia. now apply lookup_take_lt.
    + rewrite lookup_app_r by lia. rewrite Htake.
      rewrite lookup_app_r by lia. rewrite lookup_drop. f_equal. lia.
Qed.

Lemma splice_length l new lo :
  (Z.to_nat lo + length new <= length l)%nat ->
  length (splice lo new l) = length l.
Proof.
  intros Hfit. unfold splice.
  rewrite !length_app, length_take, length_drop. lia.
Qed.

End Slices.

Lemma row_length_wf a r row :
  ndarray_wf a -> cells a !! r = Some row -> Z.of_nat (length row) = shape1 a.
Proof.
  intros (_ & _ & Hrows) Hrow.
  rewrite Forall_forall in Hrows. apply Hrows. eapply list_elem_of_lookup_2, Hrow.
Qed.

Lemma pixel_at_Some a r c :
  ndarray_wf a ->
  is_Some (pixel_at a r c) <-> (0 <= r < shape0 a /\ 0 <= c < shape1 a).
Proof.
  intros Hwf. pose proof Hwf as (Hh & Hw & _). unfold pixel_at.
  destruct (0 <=? r) eqn:Hr; [apply Z.leb_le in Hr | apply Z.leb_gt in Hr].
  2: { cbn. split; [intros [? ?]; discriminate | lia]. }
  destruct (0 <=? c) eqn:Hc; [apply Z.leb_le in Hc | apply Z.leb_gt in Hc].
  2: { cbn. split; [intros [? ?]; discriminate | lia]. }
  cbn. destruct (cells a !! Z.to_nat r) as [row|] eqn:Hrow.
  - pose proof (row_length_wf a _ row Hwf Hrow) as Hlen.
    apply lookup_lt_Some in Hrow. rewrite lookup_lt_is_Some. lia.
  - apply lookup_ge_None in Hrow. split; [intros [? ?]; discriminate | lia].
Qed.

Lemma pixel_at_outside a r c :
  ndarray_wf a -> ~ (0 <= r < shape0 a /\ 0 <= c < shape1 a) -> pixel_at a r c = None.
Proof.
  intros Hwf Hout. destruct (pixel_at a r c) eqn:Hp; [|reflexivity].
  exfalso. apply Hout. apply pixel_at_Some; eauto.
Qed.

Lemma to_nat_shift (s d off c : Z) :
  0 <= s -> 0 <= d -> d - s = off ->
  (Z.to_nat d <= Z.to_nat c)%nat /\ 0 <= c ->
  Z.to_nat (c - off) = (Z.to_nat s + (Z.to_nat c - Z.to_nat d))%nat.
Proof. lia. Qed.

(** The arithmetic of the clipping, along one axis: the source
    interval [[ss, se)] and the destination interval [[ds, de)] that
    lines 87-95 compute from the source extent [n], the canvas extent
    [m] and the offset [off]. *)
Lemma clip_axis (n m off : Z) :
  let ss := Z.max 0 (- off) in
  let se := Z.min n (m - off) in
  let ds := Z.max 0 off in
  let de := ds + (se - ss) in
  (ss < se ->
   0 <= ss /\ se <= n /\ 0 <= ds /\ de <= m /\ ds - ss = off /\
   forall c, 0 <= c < m -> (ds <= c < de <-> 0 <= c - off < n)) /\
  (se <= ss -> forall c, 0 <= c < m -> ~ 0 <= c - off < n).
Proof. cbv zeta. split; [intros H; repeat split; try lia | intros H c Hc; lia]. Qed.

(** What [blit] leaves at a position of the canvas: the blend with the
    source pixel placed there, or the former pixel when no source pixel
    is placed there. *)
Lemma blit_pixel canvas src dst_x dst_y r c d :
  ndarray_wf canvas -> ndarray_wf src ->
  pixel_at canvas r c = Some d ->
  pixel_at (blit canvas src dst_x dst_y) r c =
  Some match pixel_at src (r - dst_y) (c - dst_x) with
       | Some s => blend_pixel s d
       | None => d
       end.
Proof.
  intros Hcw Hsw Hd.
  assert (Hrc : 0 <= r < shape0 canvas /\ 0 <= c < shape1 canvas)
    by (apply pixel_at_Some; eauto).
  destruct Hrc as [Hr Hc].
  pose proof Hcw as (Hch & _ & _). pose proof Hsw as (Hsh & _ & _).
  unfold blit. set (o := overlap_of canvas src dst_x dst_y).
  assert (Hde_x : dst_x_end o = dst_x_start o + (src_x_end o - src_x_start o))
    by reflexivity.
  assert (Hde_y : dst_y_end o = dst_y_start o + (src_y_end o - src_y_start o))
    by reflexivity.
  pose proof (clip_axis (shape1 src) (shape1 canvas) dst_x) as [Fx Gx].
  pose proof (clip_axis (shape0 src) (shape0 canvas) dst_y) as [Fy Gy].
  change (Z.max 0 (- dst_x)) with (src_x_start o) in Fx, Gx.
  change (Z.min (shape1 src) (shape1 canvas - dst_x)) with (src_x_end o) in Fx, Gx.
  change (Z.max 0 dst_x) with (dst_x_start o) in Fx, Gx.
  change (Z.max 0 (- dst_y)) with (src_y_start o) in Fy, Gy.
  change (Z.min (shape0 src) (shape0 canvas - dst_y)) with (src_y_end o) in Fy, Gy.
  change (Z.max 0 dst_y) with (dst_y_start o) in Fy, Gy.
  rewrite <- Hde_x in Fx. rewrite <- Hde_y in Fy.
  clearbody o.
  destruct (_ || _) eqn:Hclip.
  { rewrite Hd. f_equal. rewrite pixel_at_outside; [reflexivity | assumption |].
    apply orb_true_iff in Hclip. rewrite !Z.leb_le in Hclip.
    destruct Hclip as [Hclip|Hclip].
    - specialize (Gx Hclip c Hc). tauto.
    - specialize (Gy Hclip r Hr). tauto. }
  apply orb_false_iff in Hclip as [Hx Hy]. apply Z.leb_gt in Hx, Hy.
  destruct (Fx Hx) as (Hx1 & Hx2 & Hx3 & Hx4 & Hx5 & Hx6).
  destruct (Fy Hy) as (Hy1 & Hy2 & Hy3 & Hy4 & Hy5 & Hy6).
  specialize (Hx6 c Hc). specialize (Hy6 r Hr).
  clear Fx Gx Fy Gy.
  unfold pixel_at in Hd. unfold pixel_at at 1.
  replace ((0 <=? r) && (0 <=? c)) with true in * by (symmetry; apply andb_true_iff; lia).
  destruct (cells canvas !! Z.to_nat r) as [row|] eqn:Hrow; [|discriminate].
  pose proof (row_length_wf _ _ _ Hcw Hrow) as Hrowlen.
  cbn [cells]. unfold assign_region.
  set (src_region := slice2 _ _ _ _ (cells src)).
  set (dst_region := slice2 _ _ _ _ (cells canvas)).
  set (out := zip_with (zip_with blend_pixel) src_region dst_region).
  assert (Lsr : length src_region = Z.to_nat (src_y_end o - src_y_start o)).
  { unfold src_region, slice2. rewrite length_map. apply slice_length; lia. }
  assert (Ldr : length dst_region = Z.to_nat (src_y_end o - src_y_start o)).
  { unfold dst_region, slice2. rewrite length_map, slice_length; lia. }
  assert (Lout : length out = Z.to_nat (src_y_end o - src_y_start o)).
  { unfold out. rewrite length_zip_with. lia. }
  set (old := take (length out) (drop (Z.to_nat (dst_y_start o)) (cells canvas))).
  assert (Lold : length old = Z.to_nat (src_y_end o - src_y_start o)).
  { unfold old. rewrite length_take, length_drop, Lout. lia. }
  rewrite splice_lookup by (rewrite length_zip_with, Lout, Lold; lia).
  rewrite length_zip_with, Lout, Lold.
  destruct (decide _) as [Hin|Hout].
  2: { rewrite Hrow, Hd. f_equal. rewrite pixel_at_outside; [reflexivity | assumption |].
       lia. }
  assert (HinZ : 0 <= r - dst_y < shape0 src)
    by (apply Hy6; clear - Hin Hy3 Hr Hde_y Hy; lia).
  set (j := (Z.to_nat r - Z.to_nat (dst_y_start o))%nat).
  assert (Hjdef : j = (Z.to_nat r - Z.to_nat (dst_y_start o))%nat) by reflexivity.
  clearbody j.
  destruct (lookup_lt_is_Some_2 (cells src) (Z.to_nat (r - dst_y))) as [srow Hsrow].
  { clear - Hsh HinZ. lia. }
  pose proof (row_length_wf _ _ _ Hsw Hsrow) as Hsrowlen.
  assert (Hblock : zip_with (splice (dst_x_start o)) out old !! j =
            Some (splice (dst_x_start o)
                    (zip_with blend_pixel
                       (slice (src_x_start o) (src_x_end o) srow)
                       (slice (dst_x_start o) (dst_x_end o) row)) row)).
  { rewrite lookup_zip_with. unfold out. rewrite lookup_zip_with.
    unfold src_region, dst_region, slice2. rewrite !list_lookup_fmap.
    rewrite !slice_lookup by (clear - Hin Hjdef Hde_y; lia).
    rewrite Hjdef at 1.
    rewrite <- (to_nat_shift _ _ _ _ Hy1 Hy3 Hy5) by (clear - Hin Hr; lia).
    rewrite Hsrow.
    unfold old. rewrite lookup_take_lt by (clear - Hin Hjdef Lout; lia).
    rewrite lookup_drop.
    replace (Z.to_nat (dst_y_start o) + j)%nat with (Z.to_nat r)
      by (clear - Hin Hjdef; lia).
    rewrite Hrow. reflexivity. }
  rewrite Hblock.
  assert (Lzip : length (zip_with blend_pixel
                           (slice (src_x_start o) (src_x_end o) srow)
                           (slice (dst_x_start o) (dst_x_end o) row)) =
                 Z.to_nat (src_x_end o - src_x_start o)).
  { rewrite length_zip_with, !slice_length; lia. }
  rewrite splice_lookup by (rewrite Lzip; lia).
  rewrite Lzip.
  destruct (decide _) as [Hcin|Hcout].
  2: { rewrite Hd. f_equal. rewrite pixel_at_outside; [reflexivity | assumption |].
       lia. }
  assert (HcinZ : 0 <= c - dst_x < shape1 src)
    by (apply Hx6; clear - Hcin Hx3 Hc Hde_x Hx; lia).
  unfold pixel_at.
  replace ((0 <=? r - dst_y) && (0 <=? c - dst_x)) with true
    by (symmetry; apply andb_true_iff; rewrite !Z.leb_le; clear - HinZ HcinZ; lia).
  rewrite Hsrow.
  rewrite lookup_zip_with.
  rewrite !slice_lookup by (clear - Hcin Hde_x; lia).
  rewrite (Nat.add_comm (Z.to_nat (dst_x_start o))), Nat.sub_add by (clear - Hcin; lia).
  rewrite Hd.
  rewrite <- (to_nat_shift _ _ _ _ Hx1 Hx3 Hx5) by (clear - Hcin Hc; lia).
  destruct (lookup_lt_is_Some_2 srow (Z.to_nat (c - dst_x))) as [s Hs];
    [clear - Hsrowlen HcinZ; lia|].
  rewrite Hs. reflexivity.
Qed.

(** *** A fully transparent source pixel *)

Lemma below_256 (P : Z -> bool) :
  forallb P (seqZ 0 256) = true -> forall n, 0 <= n < 256 -> P n = true.
Proof.
  intros Hall n Hn. rewrite forallb_forall in Hall. apply Hall.
  apply list_elem_of_In, elem_of_seqZ. lia.
Qed.

Lemma mul_alpha_zero (n : Z) :
  0 <= n < 256 -> F32.mul (F32.of_Z n) alpha_zero = S754_zero false.
Proof.
  intros Hn.
  pose proof (below_256 (fun n => is_pos_zero (F32.mul (F32.of_Z n) alpha_zero))
                ltac:(vm_compute; reflexivity) n Hn) as Hz.
  cbv beta in Hz. destruct (F32.mul (F32.of_Z n) alpha_zero) as [[|]| | |];
    try discriminate. reflexivity.
Qed.

Lemma blend_channel_transparent (c_src c_dst : Z) :
  0 <= c_src < 256 -> 0 <= c_dst < 256 ->
  blend_channel c_src c_dst alpha_zero = c_dst.
Proof.
  intros Hs Hd. unfold blend_channel. rewrite mul_alpha_zero by assumption.
  apply Z.eqb_eq.
  apply (below_256
           (fun n => astype_uint8
                       (F32.add (S754_zero false)
                          (F32.mul (F32.of_Z n) (F32.sub (F32.of_Z 1) alpha_zero))) =? n)
           ltac:(vm_compute; reflexivity) c_dst Hd).
Qed.

Lemma blend_alpha_transparent (a_dst : Z) :
  0 <= a_dst < 256 ->
  blend_alpha alpha_zero (F32.div (F32.of_Z a_dst) (F32.of_Z 255)) = a_dst.
Proof.
  intros Hd. apply Z.eqb_eq.
  apply (below_256
           (fun n => blend_alpha alpha_zero (F32.div (F32.of_Z n) (F32.of_Z 255)) =? n)
           ltac:(vm_compute; reflexivity) a_dst Hd).
Qed.

Lemma blend_pixel_transparent (s d : pixel) :
  pixel_wf s -> pixel_wf d -> chA s = 0 -> blend_pixel s d = d.
Proof.
  intros (HsR & HsG & HsB & _) (HdR & HdG & HdB & HdA) Ha.
  unfold blend_pixel. rewrite Ha. fold alpha_zero.
  rewrite !blend_channel_transparent, blend_alpha_transparent by assumption.
  now destruct d.
Qed.

(** The conversion to uint8 drops the fraction: a positive value
    [m * 2^e] with [e < 0] becomes the quotient of [m] by [2^(-e)]. *)
Lemma astype_uint8_floor (m : positive) (e : Z) :
  e < 0 -> astype_uint8 (S754_finite false m e) = (Zpos m / 2 ^ (- e)) mod 256.
Proof.
  intros He. destruct e as [|p|p]; try lia.
  unfold astype_uint8, float_trunc. now rewrite Z.shiftr_div_pow2.
Qed.

(** Truncation is not rounding: under a black source pixel of alpha
    65, a destination channel 51 weighs 37.99... in binary32, where the
    exact weight is 38; it is stored as 37. *)
Example blend_channel_truncates :
  blend_channel 0 51 (F32.div (F32.of_Z 65) (F32.of_Z 255)) = 37 /\
  51 * (255 - 65) = 38 * 255.
Proof. split; vm_compute; reflexivity. Qed.

(** *** The placed source is a well-shaped array *)

Lemma rmapM_length {A B : Type} (f : A -> result B) (l : list A) (l' : list B) :
  rmapM f l = Ok l' -> length l' = length l.
Proof.
  revert l'. induction l as [|a r IH]; intros l'; cbn.
  - now intros [= <-].
  - destruct (f a) as [b|e]; cbn; [|discriminate].
    destruct (rmapM f r) as [bs|e]; cbn; [|discriminate].
    intros [= <-]. cbn. f_equal. now apply IH.
Qed.

Lemma rmapM_Forall {A B : Type} (f : A -> result B) (P : B -> Prop)
    (l : list A) (l' : list B) :
  (forall a b, f a = Ok b -> P b) -> rmapM f l = Ok l' -> Forall P l'.
Proof.
  intros Hf. revert l'. induction l as [|a r IH]; intros l'; cbn.
  - intros [= <-]. constructor.
  - destruct (f a) as [b|e] eqn:Hb; cbn; [|discriminate].
    destruct (rmapM f r) as [bs|e]; cbn; [|discriminate].
    intros [= <-]. constructor; eauto.
Qed.

Lemma fliplr_wf a : ndarray_wf a -> ndarray_wf (fliplr a).
Proof.
  intros (Hh & Hw & Hrows). repeat split; cbn.
  - now rewrite length_map.
  - exact Hw.
  - apply Forall_map. eapply Forall_impl; [exact Hrows|].
    intros row Hrow. cbn. now rewrite length_rev.
Qed.

Lemma flipud_wf a : ndarray_wf a -> ndarray_wf (flipud a).
Proof.
  intros (Hh & Hw & Hrows). repeat split; cbn.
  - now rewrite length_rev.
  - exact Hw.
  - now apply Forall_rev.
Qed.

Lemma take_ix_wf a ys xs a' : take_ix a ys xs = Ok a' -> ndarray_wf a'.
Proof.
  unfold take_ix.
  destruct (rmapM (index_at (cells a)) ys) as [rows|e] eqn:Hrows; cbn; [|discriminate].
  destruct (rmapM (index_at (arange (shape1 a))) xs) as [cols|e]; cbn; [|discriminate].
  destruct (rmapM _ rows) as [picked|e] eqn:Hpicked; cbn; [|discriminate].
  intros [= <-]. repeat split; cbn.
  - apply rmapM_length in Hrows, Hpicked. lia.
  - lia.
  - eapply rmapM_Forall; [|exact Hpicked].
    intros row row' Hrow. cbn in Hrow. apply rmapM_length in Hrow. lia.
Qed.

Lemma place_source_wf image x y flip_h flip_v scale src dst_x dst_y :
  ndarray_wf (rgba_data image) ->
  place_source image x y flip_h flip_v scale = Ok (src, dst_x, dst_y) ->
  ndarray_wf src.
Proof.
  intros Hwf. unfold place_source.
  set (flipped := if flip_v then _ else _).
  assert (Hflipped : ndarray_wf flipped).
  { unfold flipped. destruct flip_v, flip_h;
      auto using fliplr_wf, flipud_wf. }
  clearbody flipped. destruct (anchor image) as [anchor_x anchor_y].
  destruct (py_int _) as [dx|e]; cbn [rbind]; [|discriminate].
  destruct (py_int _) as [dy|e]; cbn [rbind]; [|discriminate].
  destruct (py_int _) as [sw|e]; cbn [rbind]; [|discriminate].
  destruct (py_int _) as [sh|e]; cbn [rbind]; [|discriminate].
  destruct (negb _).
  - destruct (take_ix _ _ _) as [scaled|e] eqn:Hscaled; cbn [rbind]; [|discriminate].
    intros [= <- _ _]. eapply take_ix_wf, Hscaled.
  - cbn [rbind]. now intros [= <- _ _].
Qed.

(** C5. Wherever a pixel of the placed source lies on a pixel of the
    canvas, [composite_image] stores the blend of the two: with
    [a_s = src.alpha / 255] and [a_d = dst.alpha / 255], each colour
    channel is [src * a_s + dst * (1 - a_s)] and alpha is
    [(a_s + a_d * (1 - a_s)) * 255], computed in binary32 and cut to
    their integer part; every other pixel of the canvas keeps its
    value.  A source pixel of alpha 0 leaves the four bytes of the
    destination pixel as they are. *)
Theorem composite_blends_overlap (canvas : ndarray) (image : DinoImage)
    (x y : F64.float) (flip_h flip_v : bool) (rotation scale : F64.float)
    (src : ndarray) (dst_x dst_y : Z) :
  ndarray_wf canvas ->
  ndarray_wf (rgba_data image) ->
  place_source image x y flip_h flip_v scale = Ok (src, dst_x, dst_y) ->
  exists canvas',
    composite_image canvas image x y flip_h flip_v rotation scale = Ok canvas' /\
    (forall r c s d,
       pixel_at canvas r c = Some d ->
       pixel_at src (r - dst_y) (c - dst_x) = Some s ->
       pixel_at canvas' r c = Some (blend_pixel s d)) /\
    (forall r c d,
       pixel_at canvas r c = Some d ->
       pixel_at src (r - dst_y) (c - dst_x) = None ->
       pixel_at canvas' r c = Some d) /\
    (forall s d,
       let a_s := F32.div (F32.of_Z (chA s)) (F32.of_Z 255) in
       let a_d := F32.div (F32.of_Z (chA d)) (F32.of_Z 255) in
       let over c_s c_d :=
         F32.add (F32.mul (F32.of_Z c_s) a_s)
                 (F32.mul (F32.of_Z c_d) (F32.sub (F32.of_Z 1) a_s)) in
       let a_out := F32.add a_s (F32.mul a_d (F32.sub (F32.of_Z 1) a_s)) in
       blend_pixel s d =
       Pixel (astype_uint8 (over (chR s) (chR d)))
             (astype_uint8 (over (chG s) (chG d)))
             (astype_uint8 (over (chB s) (chB d)))
             (astype_uint8 (F32.mul a_out (F32.of_Z 255)))) /\
    (forall (m : positive) (e : Z),
       e < 0 -> astype_uint8 (S754_finite false m e) = (Zpos m / 2 ^ (- e)) mod 256) /\
    (forall s d,
       pixel_wf s -> pixel_wf d -> chA s = 0 -> blend_pixel s d = d).
Proof.
  intros Hcw Hiw Hplace.
  pose proof (place_source_wf _ _ _ _ _ _ _ _ _ Hiw Hplace) as Hsw.
  exists (blit canvas src dst_x dst_y). unfold composite_image. rewrite Hplace.
  split; [reflexivity|]. split; [|split; [|split; [|split]]].
  - intros r c s d Hd Hs. rewrite (blit_pixel _ _ _ _ _ _ d) by assumption.
    now rewrite Hs.
  - intros r c d Hd Hs. rewrite (blit_pixel _ _ _ _ _ _ d) by assumption.
    now rewrite Hs.
  - reflexivity.
  - apply astype_uint8_floor.
  - apply blend_pixel_transparent.
Qed.

Ltac solve_ndarray_wf :=
  repeat split; cbn; try lia; repeat constructor.

(** An opaque red pixel composited on a transparent canvas is found
    there as it is; a transparent one changes nothing. *)
Lemma composite_blends_overlap_witness :
  exists canvas',
    composite_image blank2 red_dot (F64.of_Z 1) (F64.of_Z 1) false false
      (F64.of_Z 0) (F64.of_Z 1) = Ok canvas' /\
    pixel_at canvas' 0 0 = Some (Pixel 255 0 0 255) /\
    pixel_at canvas' 1 1 = Some (Pixel 0 0 0 0).
Proof.
  destruct (composite_blends_overlap blank2 red_dot (F64.of_Z 1) (F64.of_Z 1)
              false false (F64.of_Z 0) (F64.of_Z 1)
              (NdArray 1 1 [[Pixel 255 0 0 255]]) 0 0)
    as (canvas' & Hc & Hin & Hout & _).
  - solve_ndarray_wf.
  - solve_ndarray_wf.
  - vm_compute. reflexivity.
  - exists canvas'. split; [exact Hc|]. split.
    + apply (Hin 0 0 (Pixel 255 0 0 255) (Pixel 0 0 0 0)); reflexivity.
    + apply (Hout 1 1 (Pixel 0 0 0 0)); reflexivity.
Defined.

(** ** The render loop *)

(** C9 as stated fails: a position that is not a number makes the
    placement of the first drawn frame raise [ValueError]. *)
Lemma render_fails_on_nan_position :
  render_dinosaur blank2 dino_only S754_nan (F64.of_Z 0) [] [] false (F64.of_Z 1)
  = (blank2, Some ValueError).
Proof. vm_compute. reflexivity. Qed.

Lemma part_action_skip dino_data current_variants current_frames part_name :
  part_action_of dino_data current_variants current_frames part_name = Skip <->
  (get_part_frames dino_data part_name (selected_variant current_variants part_name) = None \/
   exists seq,
     get_part_frames dino_data part_name (selected_variant current_variants part_name)
       = Some seq /\ frames seq = []).
Proof.
  unfold part_action_of, selected_variant.
  destruct (get_part_frames _ _ _) as [seq|]; [|split; auto].
  unfold frame_count. destruct (frames seq) as [|image rest] eqn:Hf.
  - cbn. split; eauto.
  - replace (Z.of_nat (length (image :: rest)) =? 0) with false
      by (symmetry; apply Z.eqb_neq; cbn; lia).
    destruct (get_frame_total seq (default 0 (PyDict.get current_frames part_name)))
      as [img Himg]; [congruence|].
    rewrite Himg. split; [discriminate|].
    intros [Hn|(seq' & Hs & Hnil)]; [discriminate|]. congruence.
Qed.

Lemma part_action_no_fail dino_data current_variants current_frames part_name e :
  part_action_of dino_data current_variants current_frames part_name <> Crash e.
Proof.
  unfold part_action_of.
  destruct (get_part_frames _ _ _) as [seq|]; [|discriminate].
  destruct (frame_count seq =? 0) eqn:Hc; [discriminate|].
  destruct (get_frame_total seq (default 0 (PyDict.get current_frames part_name)))
    as [img Himg].
  - intros Hnil. unfold frame_count in Hc. rewrite Hnil in Hc. discriminate.
  - rewrite Himg. discriminate.
Qed.

Lemma render_parts_fold order : forall canvas dino_data x y current_variants
    current_frames flip_h scale,
  (forall part_name image,
     part_name ∈ order ->
     part_action_of dino_data current_variants current_frames part_name = Draw image ->
     exists placed, place_source image x y flip_h false scale = Ok placed) ->
  render_parts order canvas dino_data x y current_variants current_frames flip_h scale =
  (fold_left (draw_part dino_data x y current_variants current_frames flip_h scale)
     order canvas, None).
Proof.
  induction order as [|part_name rest IH]; intros canvas dino_data x y cv cf flip_h scale Hplace;
    [reflexivity|].
  cbn [render_parts fold_left]. unfold draw_part at 2.
  assert (Hrest : forall p image, p ∈ rest ->
            part_action_of dino_data cv cf p = Draw image ->
            exists placed, place_source image x y flip_h false scale = Ok placed).
  { intros p image Hin. apply Hplace. now right. }
  destruct (part_action_of dino_data cv cf part_name) as [|image|e] eqn:Hact.
  - now apply IH.
  - destruct (Hplace part_name image) as [[[src dst_x] dst_y] Hp]; [left | exact Hact |].
    unfold composite_image. rewrite Hp. cbn [rbind]. now apply IH.
  - now apply part_action_no_fail in Hact.
Qed.

(** C9, amended. For every tree, variant selection and frame
    selection, and for every position and scale at which each frame to
    draw can be placed, render does not fail.  It handles the parts in
    the order tail, dino, legs, arms, head; a part that is absent from
    the tree, or whose resolved sequence is absent or has no frame, is
    skipped without error and leaves the canvas as it is; no part fails
    for want of a variant or a frame. *)
Theorem render_skips_missing_parts (canvas : ndarray) (dino_data : DinoData)
    (x y : F64.float) (current_variants : PyDict.dict string (option string))
    (current_frames : PyDict.dict string Z) (flip_h : bool) (scale : F64.float) :
  (forall part_name image,
     part_name ∈ render_order ->
     part_action_of dino_data current_variants current_frames part_name = Draw image ->
     exists placed, place_source image x y flip_h false scale = Ok placed) ->
  render_dinosaur canvas dino_data x y current_variants current_frames flip_h scale =
    (fold_left (draw_part dino_data x y current_variants current_frames flip_h scale)
       ["tail"; "dino"; "legs"; "arms"; "head"] canvas, None) /\
  (forall part_name c,
     (get_part_frames dino_data part_name (selected_variant current_variants part_name) = None \/
      exists seq,
        get_part_frames dino_data part_name (selected_variant current_variants part_name)
          = Some seq /\ frames seq = []) ->
     draw_part dino_data x y current_variants current_frames flip_h scale c part_name = c) /\
  (forall part_name e,
     part_action_of dino_data current_variants current_frames part_name <> Crash e).
Proof.
  intros Hplace. split; [|split].
  - now apply render_parts_fold.
  - intros part_name c Hskip.
    apply (proj2 (part_action_skip dino_data current_variants current_frames part_name))
      in Hskip.
    unfold draw_part. now rewrite Hskip.
  - intros part_name e. apply part_action_no_fail.
Qed.

Lemma render_skips_missing_parts_witness :
  render_dinosaur blank2 dino_only (F64.of_Z 1) (F64.of_Z 1) [] [] false (F64.of_Z 1) =
  (NdArray 2 2 [[Pixel 255 0 0 255; Pixel 0 0 0 0]; [Pixel 0 0 0 0; Pixel 0 0 0 0]], None).
Proof.
  refine (eq_trans
            (proj1 (render_skips_missing_parts blank2 dino_only (F64.of_Z 1) (F64.of_Z 1)
                      [] [] false (F64.of_Z 1) _)) _).
  - intros part_name image _. unfold part_action_of, get_part_frames. cbn.
    destruct (decide ("dino" = part_name)); [|discriminate].
    cbn. intros [= <-]. eexists. vm_compute. reflexivity.
  - vm_compute. reflexivity.
Defined.


(** * Further properties *)

(** ** Adding and finding frames *)

Lemma variants_of_add_part_ne dino p' v' img f p :
  p' <> p -> variants_of (add_part dino p' v' img f) p = variants_of dino p.
Proof. intros Hp. unfold variants_of. now rewrite add_part_get, decide_False. Qed.

Lemma stored_frames_add_part dino p' v' img f p v :
  stored_frames (add_part dino p' v' img f) p v =
  stored_frames dino p v ++ (if decide (p' = p /\ v' = v) then [img] else []).
Proof.
  unfold stored_frames, stored.
  destruct (decide (p' = p)) as [->|Hp].
  - rewrite variants_of_add_part. destruct (decide (v' = v)) as [->|Hv].
    + rewrite get_set_eq, decide_True by auto. cbn. unfold seq_of.
      now destruct (PyDict.get (variants_of dino p) v).
    + rewrite get_set_ne by assumption. rewrite decide_False by tauto.
      now rewrite app_nil_r.
  - rewrite variants_of_add_part_ne by assumption.
    rewrite decide_False by tauto. now rewrite app_nil_r.
Qed.

Lemma get_part_frames_stored dino p v seq :
  stored dino p v = Some seq -> get_part_frames dino p v = Some seq.
Proof.
  unfold stored, variants_of, get_part_frames.
  destruct (PyDict.get (parts dino) p) as [vm|]; cbn; [|discriminate].
  now intros ->.
Qed.

(** X1. A frame added to a part and variant is found again: resolving
    that part with that variant returns a sequence whose frames are the
    frames stored there before, followed by the new image. *)
Theorem add_part_then_resolve (dino : DinoData) (p : string) (v : option string)
    (img : DinoImage) (f : option Z) :
  exists seq,
    get_part_frames (add_part dino p v img f) p v = Some seq /\
    frames seq = stored_frames dino p v ++ [img] /\
    frame_count seq = Z.of_nat (length (stored_frames dino p v)) + 1 /\
    get_frame seq (-1) = Ok img.
Proof.
  pose proof (stored_frames_add_part dino p v img f p v) as Hf.
  rewrite decide_True in Hf by auto.
  unfold stored_frames in Hf at 1.
  destruct (stored (add_part dino p v img f) p v) as [seq|] eqn:Hs.
  - exists seq. split; [now apply get_part_frames_stored|]. split; [exact Hf|].
    unfold frame_count, get_frame. rewrite Hf, length_app. cbn [length].
    split; [lia|].
    set (n := length (stored_frames dino p v)).
    replace (-1 mod Z.of_nat (n + 1)) with (Z.of_nat n).
    2: { apply (Z.mod_unique _ _ (-1)); lia. }
    rewrite Nat2Z.id, lookup_app_r, Nat.sub_diag by lia. cbn.
    destruct (stored_frames dino p v); reflexivity.
  - destruct (stored_frames dino p v); discriminate.
Qed.

(** X2. Adding a frame changes one slot only: the other parts keep
    their dictionaries, the other variants of the part keep their
    sequences, the parts keep their order, and a new part goes last. *)
Theorem add_part_changes_one_slot (dino : DinoData) (p : string) (v : option string)
    (img : DinoImage) (f : option Z) :
  (forall q, q <> p ->
     PyDict.get (parts (add_part dino p v img f)) q = PyDict.get (parts dino) q) /\
  (forall q v', q <> p ->
     get_part_frames (add_part dino p v img f) q v' = get_part_frames dino q v') /\
  (forall v', v' <> v -> stored (add_part dino p v img f) p v' = stored dino p v') /\
  PyDict.keys (parts (add_part dino p v img f)) =
    (if PyDict.contains (parts dino) p then PyDict.keys (parts dino)
     else PyDict.keys (parts dino) ++ [p]).
Proof.
  split; [|split; [|split]].
  - intros q Hq. rewrite add_part_get. now rewrite decide_False by congruence.
  - intros q v' Hq. unfold get_part_frames. rewrite add_part_get.
    now rewrite decide_False by congruence.
  - intros v' Hv. unfold stored. rewrite variants_of_add_part.
    apply get_set_ne. congruence.
  - rewrite add_part_parts. unfold PyDict.contains.
    destruct (PyDict.get (parts dino) p) eqn:Hp.
    + apply keys_set_present. eauto.
    + now apply keys_set_new.
Qed.

(** X3. Resolution returns nothing exactly when the part has no
    available variant, whatever variant is requested; and every
    available variant, when requested, resolves to its own sequence. *)
Theorem available_variants_resolve (dino : DinoData) (p : string) (v : option string) :
  (get_part_frames dino p v = None <-> get_available_variants dino p = []) /\
  (v ∈ get_available_variants dino p ->
   exists seq, stored dino p v = Some seq /\ get_part_frames dino p v = Some seq).
Proof.
  split.
  - rewrite get_part_frames_None. unfold get_available_variants.
    destruct (PyDict.get (parts dino) p) as [vm|]; [|tauto].
    split.
    + intros [Hx|[= ->]]; [discriminate | reflexivity].
    + intros Hk. right. destruct vm; [reflexivity | discriminate].
  - intros Hin. unfold get_available_variants in Hin.
    destruct (stored dino p v) as [seq|] eqn:Hs.
    + exists seq. split; [reflexivity|]. now apply get_part_frames_stored.
    + exfalso. unfold stored, variants_of in Hs.
      destruct (PyDict.get (parts dino) p) as [vm|]; cbn in Hs.
      * apply get_None_keys in Hs. contradiction.
      * now apply elem_of_nil in Hin.
Qed.

Lemma available_variants_resolve_witness :
  exists seq,
    stored head_only "head" None = Some seq /\
    get_part_frames head_only "head" None = Some seq.
Proof.
  apply (proj2 (available_variants_resolve head_only "head" None)).
  cbn. apply list_elem_of_singleton. reflexivity.
Defined.

(** ** The directory scan of [load_dinosaur] *)

Lemma name_cons_cons (a b : string) (l : Path) : name (a :: b :: l) = name (b :: l).
Proof. reflexivity. Qed.

Lemma load_step_target path dino relative rgba :
  relative <> [] ->
  load_step path dino (relative, Some rgba) =
  Ok (add_part dino (fst (load_target relative)) (snd (load_target relative))
        (loaded_image path (relative, rgba))
        (snd (parse_filename (name relative)))).
Proof.
  intros Hne. unfold load_step, loaded_image. cbn [fst snd from_file].
  destruct relative as [|a [|b [|c deeper]]]; [congruence| | |].
  - cbn [length Nat.eqb load_target]. change (name [a]) with a.
    now destruct (parse_filename a) as [[base_name variant] frame_num].
  - cbn [length Nat.eqb Nat.ltb Nat.leb load_target]. change (name [a; b]) with b.
    change (name [b]) with b.
    now destruct (parse_filename b) as [[base_name variant] frame_num].
  - cbn [length Nat.eqb Nat.ltb Nat.leb load_target List.nth_error].
    rewrite (name_cons_cons a b (c :: deeper)).
    now destruct (parse_filename (name (b :: c :: deeper))) as [[base_name variant] frame_num].
Qed.

(** X4. In a directory scan a file at the top is placed by its parsed
    base name and variant; a file in a part directory goes to that part
    with the variant of its file name, its own base name being
    dropped; below a further directory, that directory is the variant,
    whatever the file name says. *)
Theorem load_step_by_depth (path : Path) (dino : DinoData) (rgba : ndarray) :
  (forall file,
     load_step path dino ([file], Some rgba) =
     let '(base_name, variant, frame_num) := parse_filename file in
     Ok (add_part dino base_name variant (loaded_image path ([file], rgba)) frame_num)) /\
  (forall part file,
     load_step path dino ([part; file], Some rgba) =
     let '(_, variant, frame_num) := parse_filename file in
     Ok (add_part dino part variant (loaded_image path ([part; file], rgba)) frame_num)) /\
  (forall part dir deeper file,
     load_step path dino (part :: dir :: deeper ++ [file], Some rgba) =
     let '(_, _, frame_num) := parse_filename file in
     Ok (add_part dino part (Some dir)
           (loaded_image path (part :: dir :: deeper ++ [file], rgba)) frame_num)).
Proof.
  split; [|split].
  - intros file. rewrite load_step_target by discriminate.
    cbn [load_target]. change (name [file]) with file.
    now destruct (parse_filename file) as [[base_name variant] frame_num].
  - intros part file. rewrite load_step_target by discriminate.
    cbn [load_target]. change (name [part; file]) with file.
    now destruct (parse_filename file) as [[base_name variant] frame_num].
  - intros part dir deeper file. rewrite load_step_target by discriminate.
    assert (Hname : name (part :: dir :: deeper ++ [file]) = file)
      by apply (name_snoc (part :: dir :: deeper) file).
    rewrite Hname.
    assert (Ht : load_target (part :: dir :: deeper ++ [file]) = (part, Some dir))
      by (destruct deeper; reflexivity).
    rewrite Ht.
    now destruct (parse_filename file) as [[base_name variant] frame_num].
Qed.

Lemma rfoldM_load_decoded path files : forall dino,
  Forall (fun entry : Path * ndarray => fst entry <> []) files ->
  rfoldM (load_step path) dino (decoded files) = Ok (fold_left (scan_step path) files dino).
Proof.
  induction files as [|[relative rgba] rest IH]; intros dino Hne; [reflexivity|].
  apply Forall_cons in Hne as [Hrel Hrest]. cbn [fst] in Hrel.
  cbn [decoded map fst snd rfoldM fold_left].
  rewrite load_step_target by assumption. cbn [rbind].
  now apply IH.
Qed.

Lemma stored_frames_scan path files p v : forall dino,
  stored_frames (fold_left (scan_step path) files dino) p v =
  stored_frames dino p v ++
  map (loaded_image path)
      (filter (fun entry : Path * ndarray => load_target (fst entry) = (p, v)) files).
Proof.
  induction files as [|entry rest IH]; intros dino; cbn [fold_left].
  - now rewrite app_nil_r.
  - rewrite IH. unfold scan_step. rewrite stored_frames_add_part.
    rewrite <- app_assoc. f_equal.
    destruct (load_target (fst entry)) as [p' v'] eqn:Ht. cbn [fst snd].
    destruct (decide (p' = p /\ v' = v)) as [[-> ->]|Hno].
    + now rewrite filter_cons_True by assumption.
    + rewrite filter_cons_False; [reflexivity|]. rewrite Ht. intros [= -> ->]. tauto.
Qed.

(** X5. When every file of a directory decodes, the scan succeeds and
    the frames of each part and variant are the images of the files
    placed there, in the order of the listing; the frame numbers in
    the file names do not order them. *)
Theorem load_keeps_listing_order (path : Path) (files : list (Path * ndarray)) :
  Forall (fun entry : Path * ndarray => fst entry <> []) files ->
  exists dino,
    load_dinosaur path (FsDir (decoded files)) = Ok dino /\
    forall p v,
      stored_frames dino p v =
      map (loaded_image path)
          (filter (fun entry : Path * ndarray => load_target (fst entry) = (p, v)) files).
Proof.
  intros Hne. eexists. split.
  - cbn [load_dinosaur]. now apply rfoldM_load_decoded.
  - intros p v. rewrite stored_frames_scan. reflexivity.
Qed.

Lemma load_keeps_listing_order_witness :
  let a := NdArray 1 1 [[Pixel 1 1 1 255]] in
  let b := NdArray 1 1 [[Pixel 2 2 2 255]] in
  exists dino,
    load_dinosaur ["rex"] (FsDir (decoded [(["legs_02.png"], a); (["legs_01.png"], b)]))
      = Ok dino /\
    stored_frames dino "legs" None =
      [loaded_image ["rex"] (["legs_02.png"], a); loaded_image ["rex"] (["legs_01.png"], b)].
Proof.
  intros a b.
  destruct (load_keeps_listing_order ["rex"] [(["legs_02.png"], a); (["legs_01.png"], b)])
    as (dino & Hload & Hframes).
  - repeat constructor; discriminate.
  - exists dino. split; [exact Hload|]. rewrite Hframes. reflexivity.
Defined.

Lemma rfoldM_load_undecodable path pngs : forall dino,
  Forall (fun entry : Path * option ndarray => fst entry <> []) pngs ->
  Exists (fun entry : Path * option ndarray => snd entry = None) pngs ->
  rfoldM (load_step path) dino pngs = Raise ImageDecodeError.
Proof.
  induction pngs as [|[relative content] rest IH]; intros dino Hne Hbad.
  - now apply Exists_nil in Hbad.
  - apply Forall_cons in Hne as [Hrel Hrest]. cbn [fst] in Hrel.
    cbn [rfoldM]. destruct content as [rgba|].
    + rewrite load_step_target by assumption. cbn [rbind].
      apply IH; [assumption|].
      apply Exists_cons in Hbad as [Hbad|Hbad]; [discriminate | assumption].
    + unfold load_step.
      destruct (if (length relative =? 1)%nat then _ else _) as [[[p v] f]|e] eqn:Ht.
      * reflexivity.
      * exfalso. destruct relative as [|x [|y l]]; [congruence| |].
        -- cbn in Ht. now destruct (parse_filename x) as [[? ?] ?].
        -- cbn [length Nat.eqb] in Ht.
           now destruct (parse_filename (name (y :: l))) as [[? ?] ?].
Qed.

(** X6. Loading is all or nothing: a path that is neither a file nor a
    directory raises [ValueError]; a file, or a directory with at least
    one file, that the codec rejects raises the decoding error, and no
    tree is returned for the files that did decode. *)
Theorem load_fails_without_tree (path : Path) :
  load_dinosaur path FsAbsent = Raise ValueError /\
  load_dinosaur path (FsFile None) = Raise ImageDecodeError /\
  forall pngs,
    Forall (fun entry : Path * option ndarray => fst entry <> []) pngs ->
    Exists (fun entry : Path * option ndarray => snd entry = None) pngs ->
    load_dinosaur path (FsDir pngs) = Raise ImageDecodeError.
Proof.
  split; [reflexivity|]. split; [reflexivity|].
  intros pngs Hne Hbad. cbn [load_dinosaur]. now apply rfoldM_load_undecodable.
Qed.

Lemma load_fails_without_tree_witness :
  load_dinosaur ["rex"]
    (FsDir [(["dino.png"], Some (NdArray 1 1 [[Pixel 1 1 1 255]])); (["head.png"], None)])
  = Raise ImageDecodeError.
Proof.
  apply (proj2 (proj2 (load_fails_without_tree ["rex"]))).
  - repeat constructor; discriminate.
  - apply Exists_cons. right. apply Exists_cons. now left.
Defined.

(** ** Directory merges that fail *)

Lemma merge_listing_app new_path good rest : forall dino,
  merge_listing new_path dino (decoded good ++ rest) =
  merge_listing new_path (fold_left (add_by_bare_name new_path) good dino) rest.
Proof.
  induction good as [|[relative rgba] more IH]; intros dino; [reflexivity|].
  cbn [decoded map fst snd app merge_listing fold_left].
  unfold add_by_bare_name at 2. cbn [fst snd].
  destruct (parse_filename (name relative)) as [[base_name variant] frame_num].
  cbn [from_file]. apply IH.
Qed.

(** X7. A directory merge that meets a file the codec rejects stops
    there with the decoding error: the files listed before it are
    merged and stay merged, the rejected file and the files after it
    are not. *)
Theorem merge_directory_stops_at_bad_file (dino : DinoData) (new_path : Path)
    (good : list (Path * ndarray)) (relative : Path)
    (rest : list (Path * option ndarray)) :
  add_to_dinosaur dino new_path (FsDir (decoded good ++ (relative, None) :: rest)) None =
  (fold_left (add_by_bare_name new_path) good dino, Some ImageDecodeError).
Proof.
  cbn [add_to_dinosaur]. rewrite merge_listing_app. cbn [merge_listing].
  now destruct (parse_filename (name relative)) as [[base_name variant] frame_num].
Qed.

(** ** Single-file merges *)

Lemma stored_with_parts_set dino p vm v :
  stored (with_parts dino (PyDict.set (parts dino) p vm)) p v = PyDict.get vm v.
Proof. unfold stored. now rewrite variants_of_with_parts, get_set_eq. Qed.

(** X8. A single file merged without a target part is placed by its
    parsed name.  When the parsed part has a "no variant" entry, that
    entry is moved to "original" also when the file name carries a
    named variant, and the image is appended under that variant, or
    under "default" when the name has none; when the part has no "no
    variant" entry the image is appended under its parsed variant. *)
Theorem merge_parsed_file (dino : DinoData) (new_path : Path) (rgba : ndarray) :
  tree_wf dino ->
  let p := fst (fst (parse_filename (name new_path))) in
  let v := snd (fst (parse_filename (name new_path))) in
  let img := DinoImage_init new_path rgba None in
  let result := add_to_dinosaur dino new_path (FsFile (Some rgba)) None in
  snd result = None /\
  match stored dino p None with
  | Some existing =>
      let k := default "default" v in
      stored (fst result) p None = None /\
      (k <> "original" -> stored (fst result) p (Some "original") = Some existing) /\
      stored_frames (fst result) p (Some k) =
        (if decide (k = "original") then frames existing
         else stored_frames dino p (Some k)) ++ [img]
  | None =>
      stored_frames (fst result) p v = stored_frames dino p v ++ [img]
  end.
Proof.
  intros Hwf p v img result. subst result. cbn [add_to_dinosaur from_file].
  fold img. subst p v.
  destruct (parse_filename (name new_path)) as [[p v] f]. cbn [fst snd].
  destruct (stored dino p None) as [existing|] eqn:He.
  - unfold stored, variants_of in He.
    destruct (PyDict.get (parts dino) p) as [vm|] eqn:Hp; [cbn in He | discriminate].
    destruct (merge_image_collision dino p v f img vm existing Hwf Hp He)
      as (vm2 & Hwf2 & Hnone & Horig & Hother & ->).
    cbn [fst snd]. split; [reflexivity|].
    set (k := default "default" v).
    set (d2 := with_parts dino (PyDict.set (parts dino) p vm2)).
    assert (Hd2 : forall v', stored d2 p v' = PyDict.get vm2 v')
      by (intros v'; apply stored_with_parts_set).
    split; [|split].
    + unfold stored. rewrite variants_of_add_part.
      rewrite get_set_ne by discriminate.
      change (stored d2 p None = None). now rewrite Hd2.
    + intros Hk. unfold stored. rewrite variants_of_add_part.
      rewrite get_set_ne by congruence.
      change (stored d2 p (Some "original") = Some existing). now rewrite Hd2.
    + rewrite stored_frames_add_part, decide_True by auto. f_equal.
      unfold stored_frames. rewrite Hd2.
      destruct (decide (k = "original")) as [->|Hk]; [now rewrite Horig|].
      rewrite Hother by congruence. unfold stored, variants_of. now rewrite Hp.
  - rewrite merge_image_free by exact He. cbn [fst snd]. split; [reflexivity|].
    rewrite stored_frames_add_part. now rewrite decide_True by auto.
Qed.

Lemma merge_parsed_file_witness :
  let result :=
    add_to_dinosaur head_only ["head_happy.png"]
      (FsFile (Some (NdArray 1 1 [[Pixel 255 0 0 255]]))) None in
  snd result = None /\
  stored (fst result) "head" None = None /\
  PyDict.keys (variants_of (fst result) "head") = [Some "original"; Some "happy"].
Proof.
  assert (Hwf : tree_wf head_only).
  { split.
    - cbn. apply NoDup_singleton.
    - intros q vm. cbn. destruct (decide ("head" = q)); [|discriminate].
      intros [= <-]. cbn. apply NoDup_singleton. }
  pose proof (merge_parsed_file head_only ["head_happy.png"]
                (NdArray 1 1 [[Pixel 255 0 0 255]]) Hwf) as [Herr Hrest].
  split; [exact Herr|]. split; [|reflexivity].
  exact (proj1 Hrest).
Defined.

(** X9. A single-file merge touches its target part only: every other
    part of the tree keeps its variants and their frames, whether the
    image decodes or not. *)
Theorem merge_file_keeps_other_parts (dino : DinoData) (new_path : Path)
    (content : option ndarray) (part_name : option string) (q : string) :
  q <> match part_name with
       | Some p => p
       | None => fst (fst (parse_filename (name new_path)))
       end ->
  PyDict.get (parts (fst (add_to_dinosaur dino new_path (FsFile content) part_name))) q =
  PyDict.get (parts dino) q.
Proof.
  intros Hq. cbn [add_to_dinosaur].
  assert (Hmerge : forall p v f img, q <> p ->
            PyDict.get (parts (fst (merge_image dino p v f img))) q =
            PyDict.get (parts dino) q).
  { intros p v f img Hp. unfold merge_image.
    destruct (PyDict.get (parts dino) p) as [vm|];
      [|cbn [fst]; rewrite add_part_get; now rewrite decide_False by congruence].
    destruct (PyDict.get vm None) as [existing|];
      [|cbn [fst]; rewrite add_part_get; now rewrite decide_False by congruence].
    destruct (PyDict.del _ None) as [vm2|e]; cbn [fst].
    - rewrite add_part_get, decide_False by congruence. cbn.
      apply get_set_ne. congruence.
    - cbn. apply get_set_ne. congruence. }
  destruct part_name as [p|].
  - destruct (from_file new_path content) as [img|e]; [|reflexivity].
    now apply Hmerge.
  - destruct (parse_filename (name new_path)) as [[p v] f]. cbn [fst] in Hq.
    destruct (from_file new_path content) as [img|e]; [|reflexivity].
    now apply Hmerge.
Qed.

Lemma merge_file_keeps_other_parts_witness :
  PyDict.get
    (parts (fst (add_to_dinosaur head_only ["legs.png"]
                   (FsFile (Some (NdArray 1 1 [[Pixel 255 0 0 255]]))) None))) "head" =
  PyDict.get (parts head_only) "head".
Proof.
  apply (merge_file_keeps_other_parts head_only ["legs.png"]
           (Some (NdArray 1 1 [[Pixel 255 0 0 255]])) None "head").
  vm_compute. discriminate.
Defined.



(** ** Frame lookup at its edges *)

(** X11. A negative index counts from the end of the sequence: for
    [1 <= i <= N], [get_frame (-i)] is the frame at position [N - i]. *)
Theorem get_frame_negative_index (seq : DinoPartFrames) (i : Z) :
  1 <= i <= frame_count seq ->
  exists image,
    frames seq !! Z.to_nat (frame_count seq - i) = Some image /\
    get_frame seq (- i) = Ok image.
Proof.
  unfold frame_count, get_frame. intros Hi.
  set (N := Z.of_nat (length (frames seq))) in *.
  assert (Hmod : (- i) mod N = N - i).
  { symmetry. apply (Z.mod_unique _ _ (-1)); lia. }
  rewrite Hmod.
  destruct (lookup_lt_is_Some_2 (frames seq) (Z.to_nat (N - i))) as [image Himg]; [lia|].
  exists image. rewrite Himg. split; [reflexivity|].
  destruct (frames seq); [cbn in N; lia | reflexivity].
Qed.

Lemma get_frame_negative_index_witness :
  let seq := MkDinoPartFrames "legs" None [red_dot; red_dot] in
  exists image,
    frames seq !! Z.to_nat (frame_count seq - 1) = Some image /\
    get_frame seq (- 1) = Ok image.
Proof.
  intros seq. apply (get_frame_negative_index seq 1). vm_compute. split; discriminate.
Defined.

(** X12. Frame lookup fails in one case only: it raises [ValueError]
    exactly when the sequence has no frame, whatever the index, and it
    never raises an index error. *)
Theorem get_frame_fails_iff_empty (seq : DinoPartFrames) (k : Z) :
  (get_frame seq k = Raise ValueError <-> frames seq = []) /\
  (forall e, get_frame seq k = Raise e -> e = ValueError /\ frames seq = []).
Proof.
  assert (Hempty : frames seq = [] -> get_frame seq k = Raise ValueError).
  { intros Hnil. unfold get_frame. now rewrite Hnil. }
  assert (Hfail : forall e, get_frame seq k = Raise e -> e = ValueError /\ frames seq = []).
  { intros e He. destruct (frames seq) as [|image rest] eqn:Hf.
    - rewrite (Hempty eq_refl) in He. now injection He as <-.
    - destruct (get_frame_total seq k) as [img Himg]; [congruence|].
      rewrite Himg in He. discriminate. }
  split; [|exact Hfail].
  split; [|exact Hempty]. intros He. now apply Hfail in He.
Qed.

(** ** What the parser returns *)

Section ParserFacts.
Import PyStr.

Lemma has_char_app c (s t : string) :
  has_char c (s ++ t)%string = has_char c s || has_char c t.
Proof.
  induction s as [|a r IH]; [reflexivity|].
  simpl. rewrite IH. now rewrite orb_assoc.
Qed.

Lemma split1_no_sep c (s : string) : has_char c s = false -> split1 c s = [s].
Proof.
  induction s as [|a r IH]; [reflexivity|].
  cbn. intros Hc. apply orb_false_iff in Hc as [Ha Hr].
  rewrite Ha, IH by assumption. reflexivity.
Qed.

Lemma split1_at_first c (b v : string) :
  has_char c b = false -> split1 c (b ++ String c v)%string = [b; v].
Proof.
  induction b as [|a r IH]; simpl.
  - intros _. now rewrite Ascii.eqb_refl.
  - intros Hc. apply orb_false_iff in Hc as [Ha Hr].
    rewrite Ha, IH by assumption. reflexivity.
Qed.

(** The two pieces of a stem: either it has no underscore, or it is
    cut at its first underscore. *)
Lemma split1_cases (s : string) :
  (has_char "_" s = false /\ split1 "_" s = [s]) \/
  (exists b v, s = (b ++ String "_" v)%string /\ has_char "_" b = false /\
               split1 "_" s = [b; v]).
Proof.
  induction s as [|a r IH]; [left; split; reflexivity|].
  destruct (Ascii.eqb a "_") eqn:Ha.
  - right. exists EmptyString, r. apply Ascii.eqb_eq in Ha as ->.
    repeat split.
  - destruct IH as [[Hr Hs]|(b & v & -> & Hb & Hs)].
    + left. cbn. rewrite Ha, Hr, Hs. split; reflexivity.
    + right. exists (String a b), v. cbn. rewrite Ha, Hb.
      cbn in Hs. rewrite Hs. repeat split.
Qed.



Lemma search_frame_no_sep (s : string) : has_char "_" s = false -> search_frame s = None.
Proof.
  induction s as [|c r IH]; [reflexivity|].
  cbn [has_char]. intros Hc. apply orb_false_iff in Hc as [Ha Hr].
  rewrite search_frame_eq, IH, Ha by assumption. reflexivity.
Qed.



End ParserFacts.

(** X13. The parser cuts the stem, once the frame suffix is removed,
    at its first underscore and loses nothing: the base name holds no
    underscore, a missing variant means that what is left of the stem
    is the base name, and otherwise base name, underscore and variant
    make it up again. *)
Theorem parse_stem_splits_at_first_underscore (stem : string) :
  let '(base_name, variant, frame_num) := parse_stem stem in
  has_char "_" base_name = false /\
  let rest := match PyStr.search_frame stem with
              | Some (pre, _) => pre
              | None => stem
              end in
  match variant with
  | None => rest = base_name
  | Some v => rest = (base_name ++ String "_" v)%string
  end.
Proof.
  unfold parse_stem.
  destruct (PyStr.search_frame stem) as [[pre d]|].
  - destruct (split1_cases pre) as [[Hr Hs]|(b & v & -> & Hb & Hs)]; rewrite Hs; cbn.
    + now split.
    + now split.
  - destruct (split1_cases stem) as [[Hr Hs]|(b & v & -> & Hb & Hs)]; rewrite Hs; cbn.
    + now split.
    + now split.
Qed.



(** ** File names with an extension *)

Section StemFacts.
Import PyStr.

Lemma rfind_absent c (s : string) : has_char c s = false -> rfind c s = None.
Proof.
  induction s as [|a r IH]; [reflexivity|].
  simpl. intros Hc. apply orb_false_iff in Hc as [Ha Hr].
  now rewrite IH, Ha.
Qed.

Lemma rfind_last c (s t : string) :
  has_char c t = false -> rfind c (s ++ String c t)%string = Some (String.length s).
Proof.
  intros Ht. induction s as [|a r IH]; simpl.
  - now rewrite rfind_absent, Ascii.eqb_refl.
  - now rewrite IH.
Qed.

Lemma substring_prefix (s t : string) :
  String.substring 0 (String.length s) (s ++ t)%string = s.
Proof.
  induction s as [|a r IH]; simpl.
  - now destruct t.
  - now rewrite IH.
Qed.

Lemma length_append (s t : string) :
  String.length (s ++ t)%string = (String.length s + String.length t)%nat.
Proof. induction s as [|a r IH]; simpl; [reflexivity | now rewrite IH]. Qed.

Lemma stem_of_name_ext (st ext : string) :
  st <> EmptyString -> ext <> EmptyString -> has_char "." ext = false ->
  PyPath.stem_of_name (st ++ String "." ext)%string = st.
Proof.
  intros Hst Hext Hdot. unfold PyPath.stem_of_name.
  rewrite rfind_last by assumption. rewrite length_append. simpl String.length.
  assert (Hlen : ((0 <? String.length st)
                  && (String.length st <? String.length st + S (String.length ext) - 1))%nat
                 = true).
  { apply andb_true_iff. split; apply Nat.ltb_lt.
    - destruct st; [congruence | simpl; lia].
    - destruct ext; [congruence | simpl; lia]. }
  rewrite Hlen. apply substring_prefix.
Qed.

Lemma split_no_sep c (s : string) : has_char c s = false -> split c s = [s].
Proof.
  induction s as [|a r IH]; [reflexivity|].
  simpl. intros Hc. apply orb_false_iff in Hc as [Ha Hr].
  now rewrite Ha, IH.
Qed.

(** A name without a separator is a path of one component. *)
Lemma of_string_name (n : string) :
  has_char "/" n = false -> n <> EmptyString -> n <> "." -> PyPath.of_string n = [n].
Proof.
  intros Hsep Hne Hdot. unfold PyPath.of_string. rewrite split_no_sep by assumption.
  rewrite filter_cons_True by tauto. reflexivity.
Qed.

Lemma stem_with_ext (st ext : string) :
  st <> EmptyString -> ext <> EmptyString ->
  has_char "/" st = false -> has_char "/" ext = false -> has_char "." ext = false ->
  PyPath.stem (PyPath.of_string (st ++ String "." ext)%string) = st.
Proof.
  intros Hst Hext Hs1 Hs2 Hdot.
  rewrite of_string_name.
  - unfold PyPath.stem. change (PyPath.name [(st ++ String "." ext)%string])
      with (st ++ String "." ext)%string. now apply stem_of_name_ext.
  - rewrite has_char_app. simpl. now rewrite Hs1, Hs2.
  - destruct st; [congruence | discriminate].
  - destruct st as [|a [|b r]]; [congruence | | discriminate].
    simpl. intros [= -> Hx].
Qed.

Lemma all_digits_no_char (c : ascii) (d : string) :
  is_digit c = false -> all_digits d = true -> has_char c d = false.
Proof.
  intros Hc. induction d as [|a r IH]; [reflexivity|].
  simpl. intros Hd. apply andb_true_iff in Hd as [Ha Hr].
  rewrite IH by assumption. rewrite orb_false_r.
  apply Ascii.eqb_neq. intros ->. congruence.
Qed.

End StemFacts.

(** X15. File names built by the naming convention parse back to their
    components.  For a base name without underscore, any variant, a
    non-empty run of digits and an extension without dot (none of them
    holding a path separator): [base_variant_digits.ext] gives the
    base, the variant and the value of the digits;
    [base_digits.ext] gives the base, no variant and the value; and
    [base.ext], for a non-empty base, gives the base alone. *)
Theorem parse_filename_of_convention (b v d ext : string) :
  has_char "_" b = false -> has_char "/" b = false -> has_char "/" v = false ->
  d <> EmptyString -> PyStr.all_digits d = true ->
  ext <> EmptyString -> has_char "." ext = false -> has_char "/" ext = false ->
  parse_filename (b ++ String "_" (v ++ String "_" (d ++ String "." ext)))%string
    = (b, Some v, Some (PyStr.int d)) /\
  parse_filename (b ++ String "_" (d ++ String "." ext))%string
    = (b, None, Some (PyStr.int d)) /\
  (b <> EmptyString -> parse_filename (b ++ String "." ext)%string = (b, None, None)).
Proof.
  intros Hb Hbs Hvs Hd Hdig Hext Hdot Hes.
  assert (Hds : has_char "/" d = false) by (now apply all_digits_no_char).
  assert (Happ : forall x y z : string,
            (x ++ String "_" (y ++ z))%string = ((x ++ String "_" y) ++ z)%string).
  { intros x y z. induction x as [|a r IH]; [reflexivity|].
    change (String a (r ++ String "_" (y ++ z)) = String a ((r ++ String "_" y) ++ z))%string.
    now rewrite IH. }
  split; [|split].
  - unfold parse_filename.
    rewrite (Happ b v), (Happ (b ++ String "_" v)%string d).
    rewrite stem_with_ext; try assumption.
    + rewrite parse_stem_frame_suffix by assumption.
      unfold base_of, variant_of. now rewrite split1_at_first.
    + destruct b; discriminate.
    + rewrite !has_char_app. simpl. now rewrite Hbs, Hvs, Hds.
  - unfold parse_filename. rewrite (Happ b d).
    rewrite stem_with_ext; try assumption.
    + rewrite parse_stem_frame_suffix by assumption.
      unfold base_of, variant_of. now rewrite split1_no_sep.
    + destruct b; discriminate.
    + rewrite !has_char_app. simpl. now rewrite Hbs, Hds.
  - intros Hne. unfold parse_filename. rewrite stem_with_ext by assumption.
    unfold parse_stem. rewrite search_frame_no_sep by assumption.
    now rewrite split1_no_sep.
Qed.

Lemma parse_filename_of_convention_witness :
  parse_filename "legs_dark_blue_007.png" = ("legs", Some "dark_blue", Some 7).
Proof.
  apply (proj1 (parse_filename_of_convention "legs" "dark_blue" "007" "png"
                  eq_refl eq_refl eq_refl ltac:(discriminate) eq_refl
                  ltac:(discriminate) eq_refl eq_refl)).
Defined.

(** ** Creating and clearing a canvas *)

Lemma uniform_rows (p : pixel) (f : pixel -> pixel) (w : nat) (rows : list (list pixel)) :
  (forall q, f q = p) ->
  Forall (fun row => length row = w) rows ->
  map (map f) rows = replicate (length rows) (replicate w p).
Proof.
  intros Hf. induction 1 as [|row rows Hrow Hrows IH]; [reflexivity|].
  cbn. rewrite IH. f_equal. rewrite <- Hrow.
  clear - Hf. induction row as [|q row IH]; [reflexivity|]. cbn. now rewrite Hf, IH.
Qed.

Lemma clear_canvas_uniform canvas c0 c1 c2 c3 :
  ndarray_wf canvas ->
  clear_canvas canvas (c0, c1, c2, c3) =
  NdArray (shape0 canvas) (shape1 canvas)
    (replicate (Z.to_nat (shape0 canvas))
       (replicate (Z.to_nat (shape1 canvas)) (Pixel c0 c1 c2 c3))).
Proof.
  intros (Hh & Hw & Hrows). unfold clear_canvas, assign_channel. cbn. f_equal.
  rewrite !map_map.
  rewrite (map_ext _ (map (fun q => set_channel 3 c3 (set_channel 2 c2
                                      (set_channel 1 c1 (set_channel 0 c0 q))))))
    by (intros row; now rewrite !map_map).
  rewrite (uniform_rows (Pixel c0 c1 c2 c3) _ (Z.to_nat (shape1 canvas))).
  - f_equal. lia.
  - reflexivity.
  - eapply Forall_impl; [exact Hrows|]. cbn. lia.
Qed.

Lemma pixel_at_uniform h w p r c :
  0 <= r < h -> 0 <= c < w ->
  pixel_at (NdArray h w (replicate (Z.to_nat h) (replicate (Z.to_nat w) p))) r c = Some p.
Proof.
  intros Hr Hc. unfold pixel_at.
  replace ((0 <=? r) && (0 <=? c)) with true by (symmetry; apply andb_true_iff; lia).
  cbn [cells]. rewrite lookup_replicate_2 by lia. apply lookup_replicate_2. lia.
Qed.

Lemma uniform_wf h w p :
  0 <= h -> 0 <= w ->
  ndarray_wf (NdArray h w (replicate (Z.to_nat h) (replicate (Z.to_nat w) p))).
Proof.
  intros Hh Hw. repeat split; cbn.
  - rewrite length_replicate. lia.
  - exact Hw.
  - apply Forall_replicate. rewrite length_replicate. lia.
Qed.

(** X16. [create_canvas] refuses a negative width or height with
    [ValueError]; otherwise it returns a well-shaped array of the
    requested height and width whose every pixel is transparent
    black. *)
Theorem create_canvas_transparent (width height : Z) :
  (width < 0 \/ height < 0 -> create_canvas width height = Raise ValueError) /\
  (0 <= width -> 0 <= height ->
   exists canvas,
     create_canvas width height = Ok canvas /\
     ndarray_wf canvas /\ shape0 canvas = height /\ shape1 canvas = width /\
     forall r c, 0 <= r < height -> 0 <= c < width ->
                 pixel_at canvas r c = Some (Pixel 0 0 0 0)).
Proof.
  unfold create_canvas. split.
  - intros Hneg.
    replace ((width <? 0) || (height <? 0)) with true; [reflexivity|].
    symmetry. apply orb_true_iff. rewrite !Z.ltb_lt. exact Hneg.
  - intros Hw Hh.
    replace ((width <? 0) || (height <? 0)) with false
      by (symmetry; apply orb_false_iff; rewrite !Z.ltb_ge; lia).
    eexists. split; [reflexivity|]. split; [now apply uniform_wf|].
    split; [reflexivity|]. split; [reflexivity|].
    intros r c Hr Hc. now apply pixel_at_uniform.
Qed.



(** ** The canvas keeps its shape *)

Lemma splice_length_fits {A : Type} (lo : Z) (new l : list A) :
  (length new <= length l - Z.to_nat lo)%nat -> length (splice lo new l) = length l.
Proof.
  intros Hfit. unfold splice. rewrite !length_app, length_take, length_drop. lia.
Qed.

Lemma blit_wf canvas src dst_x dst_y :
  ndarray_wf canvas ->
  ndarray_wf (blit canvas src dst_x dst_y) /\
  shape0 (blit canvas src dst_x dst_y) = shape0 canvas /\
  shape1 (blit canvas src dst_x dst_y) = shape1 canvas.
Proof.
  intros Hwf. unfold blit. destruct (_ || _); [split; [assumption | split; reflexivity]|].
  split; [|now split]. destruct Hwf as (Hh & Hw & Hrows).
  set (o := overlap_of canvas src dst_x dst_y). clearbody o.
  set (w := Z.to_nat (shape1 canvas)).
  assert (Hrows' : Forall (fun row : list pixel => length row = w) (cells canvas)).
  { eapply Forall_impl; [exact Hrows|]. cbn. intros row Hrow. unfold w. lia. }
  set (src_region := slice2 _ _ _ _ (cells src)).
  set (dst_region := slice2 _ _ _ _ (cells canvas)).
  assert (Hdst : Forall (fun dr : list pixel =>
                           (length dr <= w - Z.to_nat (dst_x_start o))%nat) dst_region).
  { unfold dst_region, slice2. apply Forall_map. unfold slice at 2.
    apply Forall_take, Forall_drop. eapply Forall_impl; [exact Hrows'|].
    cbn. intros row Hrow. unfold slice. rewrite length_take, length_drop. lia. }
  assert (Hout : Forall (fun brow : list pixel =>
                           (length brow <= w - Z.to_nat (dst_x_start o))%nat)
                   (zip_with (zip_with blend_pixel) src_region dst_region)).
  { eapply Forall_zip_with_snd; [|exact Hdst].
    apply Forall_forall. intros sr _ dr Hdr. rewrite length_zip_with. lia. }
  set (out := zip_with (zip_with blend_pixel) src_region dst_region) in *.
  clearbody out. clear Hdst src_region dst_region.
  unfold assign_region.
  set (old := take (length out) (drop (Z.to_nat (dst_y_start o)) (cells canvas))).
  assert (Hold : Forall (fun row : list pixel => length row = w) old)
    by (apply Forall_take, Forall_drop, Hrows').
  assert (Hblock : Forall (fun row : list pixel => length row = w)
                     (zip_with (splice (dst_x_start o)) out old)).
  { eapply Forall_zip_with_fst; [exact Hout|].
    eapply Forall_impl; [exact Hold|]. cbn. intros row Hrow brow Hbrow.
    rewrite splice_length_fits; lia. }
  repeat split; cbn [shape0 shape1 cells].
  - rewrite splice_length_fits; [exact Hh|].
    rewrite length_zip_with. unfold old. rewrite length_take, length_drop. lia.
  - exact Hw.
  - assert (Hall : Forall (fun row : list pixel => length row = w)
                     (splice (dst_y_start o) (zip_with (splice (dst_x_start o)) out old)
                        (cells canvas))).
    { unfold splice at 1. rewrite !Forall_app. repeat split.
      - now apply Forall_take.
      - exact Hblock.
      - now apply Forall_drop. }
    eapply Forall_impl; [exact Hall|]. cbn. intros row Hrow. unfold w in Hrow. lia.
Qed.

(** X18. [composite_image] never resizes the canvas: whenever it
    returns, the canvas has the height and width it had and is still a
    well-shaped array, whatever the image, position, flip and scale. *)
Theorem composite_keeps_shape (canvas : ndarray) (image : DinoImage) (x y : F64.float)
    (flip_h flip_v : bool) (rotation scale : F64.float) (canvas' : ndarray) :
  ndarray_wf canvas ->
  composite_image canvas image x y flip_h flip_v rotation scale = Ok canvas' ->
  ndarray_wf canvas' /\ shape0 canvas' = shape0 canvas /\ shape1 canvas' = shape1 canvas.
Proof.
  intros Hwf. unfold composite_image.
  destruct (place_source image x y flip_h flip_v scale) as [[[src dst_x] dst_y]|e];
    cbn [rbind]; [|discriminate].
  intros [= <-]. now apply blit_wf.
Qed.

Lemma composite_keeps_shape_witness :
  exists canvas',
    composite_image blank2 red_dot (F64.of_Z 2) (F64.of_Z 1) false false
      (F64.of_Z 0) (F64.of_Z 3) = Ok canvas' /\
    ndarray_wf canvas' /\ shape0 canvas' = 2 /\ shape1 canvas' = 2.
Proof.
  eexists. split; [vm_compute; reflexivity|].
  apply (composite_keeps_shape blank2 red_dot (F64.of_Z 2) (F64.of_Z 1) false false
           (F64.of_Z 0) (F64.of_Z 3)).
  - solve_ndarray_wf.
  - vm_compute. reflexivity.
Defined.

Lemma render_parts_wf order : forall canvas dino_data x y current_variants
    current_frames flip_h scale,
  ndarray_wf canvas ->
  let result := render_parts order canvas dino_data x y current_variants current_frames
                  flip_h scale in
  ndarray_wf (fst result) /\
  shape0 (fst result) = shape0 canvas /\ shape1 (fst result) = shape1 canvas.
Proof.
  induction order as [|part_name rest IH];
    intros canvas dino_data x y cv cf flip_h scale Hwf;
    [split; [assumption | split; reflexivity]|].
  cbn [render_parts].
  destruct (part_action_of dino_data cv cf part_name) as [|image|e].
  - now apply IH.
  - unfold composite_image.
    destruct (place_source image x y flip_h false scale) as [[[src dst_x] dst_y]|e];
      cbn [rbind]; [|split; [assumption | split; reflexivity]].
    destruct (blit_wf canvas src dst_x dst_y Hwf) as (Hwf' & H0 & H1).
    destruct (IH (blit canvas src dst_x dst_y) dino_data x y cv cf flip_h scale Hwf')
      as (Hr & Hr0 & Hr1).
    split; [exact Hr | split; congruence].
  - split; [assumption | split; reflexivity].
Qed.

(** X19. [render_dinosaur] never resizes the canvas either: the canvas
    it leaves, also when it ends by an exception, is a well-shaped
    array of the same height and width. *)
Theorem render_keeps_shape (canvas : ndarray) (dino_data : DinoData) (x y : F64.float)
    (current_variants : PyDict.dict string (option string))
    (current_frames : PyDict.dict string Z) (flip_h : bool) (scale : F64.float) :
  ndarray_wf canvas ->
  let result := render_dinosaur canvas dino_data x y current_variants current_frames
                  flip_h scale in
  ndarray_wf (fst result) /\
  shape0 (fst result) = shape0 canvas /\ shape1 (fst result) = shape1 canvas.
Proof. intros Hwf. now apply render_parts_wf. Qed.

Lemma render_keeps_shape_witness :
  shape0 (fst (render_dinosaur blank2 dino_only S754_nan (F64.of_Z 0) [] [] false
                 (F64.of_Z 1))) = 2.
Proof.
  refine (proj1 (proj2 (render_keeps_shape blank2 dino_only S754_nan (F64.of_Z 0)
                          [] [] false (F64.of_Z 1) _))).
  solve_ndarray_wf.
Defined.


(** ** Opaque pixels *)

Lemma mul_one_minus_alpha_one (n : Z) :
  0 <= n < 256 ->
  F32.mul (F32.of_Z n) (F32.sub (F32.of_Z 1) alpha_one) = S754_zero false.
Proof.
  intros Hn.
  pose proof (below_256
                (fun n => is_pos_zero (F32.mul (F32.of_Z n) (F32.sub (F32.of_Z 1) alpha_one)))
                ltac:(vm_compute; reflexivity) n Hn) as Hz.
  cbv beta in Hz.
  destruct (F32.mul (F32.of_Z n) (F32.sub (F32.of_Z 1) alpha_one)) as [[|]| | |];
    try discriminate. reflexivity.
Qed.

Lemma blend_channel_opaque (c_src c_dst : Z) :
  0 <= c_src < 256 -> 0 <= c_dst < 256 ->
  blend_channel c_src c_dst alpha_one = c_src.
Proof.
  intros Hs Hd. unfold blend_channel. rewrite mul_one_minus_alpha_one by assumption.
  apply Z.eqb_eq.
  apply (below_256
           (fun n => astype_uint8
                       (F32.add (F32.mul (F32.of_Z n) alpha_one) (S754_zero false)) =? n)
           ltac:(vm_compute; reflexivity) c_src Hs).
Qed.

Lemma blend_alpha_opaque_src (a_dst : Z) :
  0 <= a_dst < 256 ->
  blend_alpha alpha_one (F32.div (F32.of_Z a_dst) (F32.of_Z 255)) = 255.
Proof.
  intros Hd. apply Z.eqb_eq.
  apply (below_256
           (fun n => blend_alpha alpha_one (F32.div (F32.of_Z n) (F32.of_Z 255)) =? 255)
           ltac:(vm_compute; reflexivity) a_dst Hd).
Qed.

Lemma blend_alpha_opaque_dst (a_src : Z) :
  0 <= a_src < 256 ->
  blend_alpha (F32.div (F32.of_Z a_src) (F32.of_Z 255)) alpha_one = 255.
Proof.
  intros Hs. apply Z.eqb_eq.
  apply (below_256
           (fun n => blend_alpha (F32.div (F32.of_Z n) (F32.of_Z 255)) alpha_one =? 255)
           ltac:(vm_compute; reflexivity) a_src Hs).
Qed.

Lemma blend_pixel_opaque (s d : pixel) :
  pixel_wf s -> pixel_wf d -> chA s = 255 -> blend_pixel s d = s.
Proof.
  intros (HsR & HsG & HsB & _) (HdR & HdG & HdB & HdA) Ha.
  unfold blend_pixel. rewrite Ha. fold alpha_one.
  rewrite !blend_channel_opaque, blend_alpha_opaque_src by assumption.
  destruct s as [r g b a]. cbn in Ha |- *. now subst a.
Qed.

(** X20. An opaque source pixel replaces the pixel under it: where a
    source pixel of alpha 255 lies on a canvas pixel, [composite_image]
    leaves exactly the four bytes of the source pixel. *)
Theorem composite_opaque_replaces (canvas : ndarray) (image : DinoImage)
    (x y : F64.float) (flip_h flip_v : bool) (rotation scale : F64.float)
    (src : ndarray) (dst_x dst_y r c : Z) (s d : pixel) :
  ndarray_wf canvas ->
  ndarray_wf (rgba_data image) ->
  place_source image x y flip_h flip_v scale = Ok (src, dst_x, dst_y) ->
  pixel_at canvas r c = Some d ->
  pixel_at src (r - dst_y) (c - dst_x) = Some s ->
  pixel_wf s -> pixel_wf d -> chA s = 255 ->
  exists canvas',
    composite_image canvas image x y flip_h flip_v rotation scale = Ok canvas' /\
    pixel_at canvas' r c = Some s.
Proof.
  intros Hcw Hiw Hplace Hd Hs Hsw Hdw Ha.
  pose proof (place_source_wf _ _ _ _ _ _ _ _ _ Hiw Hplace) as Hsrc.
  exists (blit canvas src dst_x dst_y). unfold composite_image. rewrite Hplace.
  split; [reflexivity|].
  rewrite (blit_pixel _ _ _ _ _ _ d) by assumption.
  now rewrite Hs, blend_pixel_opaque.
Qed.

Lemma composite_opaque_replaces_witness :
  exists canvas',
    composite_image (NdArray 1 1 [[Pixel 10 20 30 40]]) red_dot (F64.of_Z 0) (F64.of_Z 0)
      false false (F64.of_Z 0) (F64.of_Z 1) = Ok canvas' /\
    pixel_at canvas' 0 0 = Some (Pixel 255 0 0 255).
Proof.
  apply (composite_opaque_replaces (NdArray 1 1 [[Pixel 10 20 30 40]]) red_dot
           (F64.of_Z 0) (F64.of_Z 0) false false (F64.of_Z 0) (F64.of_Z 1)
           (NdArray 1 1 [[Pixel 255 0 0 255]]) 0 0 0 0
           (Pixel 255 0 0 255) (Pixel 10 20 30 40)).
  - solve_ndarray_wf.
  - solve_ndarray_wf.
  - vm_compute. reflexivity.
  - reflexivity.
  - reflexivity.
  - unfold pixel_wf. cbn. lia.
  - unfold pixel_wf. cbn. lia.
  - reflexivity.
Defined.

(** X21. An opaque canvas pixel stays opaque: whatever source pixel is
    composited on a canvas pixel of alpha 255, and wherever no source
    pixel is, the alpha of that canvas pixel is 255 afterwards. *)
Theorem composite_keeps_opaque (canvas : ndarray) (image : DinoImage)
    (x y : F64.float) (flip_h flip_v : bool) (rotation scale : F64.float)
    (src : ndarray) (dst_x dst_y r c : Z) (d : pixel) :
  ndarray_wf canvas ->
  ndarray_wf (rgba_data image) ->
  place_source image x y flip_h flip_v scale = Ok (src, dst_x, dst_y) ->
  (forall r' c' s, pixel_at src r' c' = Some s -> 0 <= chA s < 256) ->
  pixel_at canvas r c = Some d ->
  chA d = 255 ->
  exists canvas' d',
    composite_image canvas image x y flip_h flip_v rotation scale = Ok canvas' /\
    pixel_at canvas' r c = Some d' /\ chA d' = 255.
Proof.
  intros Hcw Hiw Hplace Hbytes Hd Ha.
  pose proof (place_source_wf _ _ _ _ _ _ _ _ _ Hiw Hplace) as Hsrc.
  exists (blit canvas src dst_x dst_y). eexists.
  unfold composite_image. rewrite Hplace.
  split; [reflexivity|].
  split; [apply (blit_pixel _ _ _ _ _ _ d); assumption|].
  destruct (pixel_at src (r - dst_y) (c - dst_x)) as [s|] eqn:Hs; [|exact Ha].
  cbn. rewrite Ha. fold alpha_one. apply blend_alpha_opaque_dst. eauto.
Qed.

Lemma composite_keeps_opaque_witness :
  exists canvas' d',
    composite_image (NdArray 1 1 [[Pixel 135 206 235 255]])
      (DinoImage_init ["ghost.png"] (NdArray 1 1 [[Pixel 255 255 255 77]]) None)
      (F64.of_Z 0) (F64.of_Z 0) false false (F64.of_Z 0) (F64.of_Z 1) = Ok canvas' /\
    pixel_at canvas' 0 0 = Some d' /\ chA d' = 255.
Proof.
  apply (composite_keeps_opaque (NdArray 1 1 [[Pixel 135 206 235 255]])
           (DinoImage_init ["ghost.png"] (NdArray 1 1 [[Pixel 255 255 255 77]]) None)
           (F64.of_Z 0) (F64.of_Z 0) false false (F64.of_Z 0) (F64.of_Z 1)
           (NdArray 1 1 [[Pixel 255 255 255 77]]) 0 0 0 0 (Pixel 135 206 235 255)).
  - solve_ndarray_wf.
  - solve_ndarray_wf.
  - vm_compute. reflexivity.
  - intros r' c' s. unfold pixel_at. cbn [cells].
    destruct ((0 <=? r') && (0 <=? c')); [|discriminate].
    destruct (Z.to_nat r') as [|n]; cbn; [|discriminate].
    destruct (Z.to_nat c') as [|m]; cbn; [|discriminate].
    intros [= <-]. cbn. lia.
  - reflexivity.
  - reflexivity.
Defined.

(** ** What rendering reads *)

Lemma part_action_of_same dino dino' cv cf part_name :
  PyDict.get (parts dino) part_name = PyDict.get (parts dino') part_name ->
  part_action_of dino cv cf part_name = part_action_of dino' cv cf part_name.
Proof. intros Hp. unfold part_action_of, get_part_frames. now rewrite Hp. Qed.

Lemma render_parts_same order : forall canvas dino dino' x y cv cf flip_h scale,
  (forall p, p ∈ order -> PyDict.get (parts dino) p = PyDict.get (parts dino') p) ->
  render_parts order canvas dino x y cv cf flip_h scale =
  render_parts order canvas dino' x y cv cf flip_h scale.
Proof.
  induction order as [|part_name rest IH];
    intros canvas dino dino' x y cv cf flip_h scale Hsame; [reflexivity|].
  cbn [render_parts].
  rewrite (part_action_of_same dino dino') by (apply Hsame; now left).
  assert (Hrest : forall p, p ∈ rest ->
            PyDict.get (parts dino) p = PyDict.get (parts dino') p)
    by (intros p Hin; apply Hsame; now right).
  destruct (part_action_of dino' cv cf part_name) as [|image|e]; [| |reflexivity].
  - now apply IH.
  - destruct (composite_image canvas image x y flip_h false (F64.of_Z 0) scale);
      [now apply IH | reflexivity].
Qed.

Lemma render_parts_absent order : forall canvas dino x y cv cf flip_h scale,
  (forall p, p ∈ order -> PyDict.get (parts dino) p = None) ->
  render_parts order canvas dino x y cv cf flip_h scale = (canvas, None).
Proof.
  induction order as [|part_name rest IH];
    intros canvas dino x y cv cf flip_h scale Habs; [reflexivity|].
  cbn [render_parts]. unfold part_action_of, get_part_frames.
  rewrite Habs by now left. apply IH. intros p Hin. apply Habs. now right.
Qed.

(** X22. Rendering reads the parts tail, dino, legs, arms and head and
    no other: two trees that agree on these five parts render alike,
    and a tree that has none of them leaves the canvas as it is without
    failing, whatever the position and the scale, even when they are
    not numbers. *)
Theorem render_reads_five_parts (canvas : ndarray) (dino : DinoData) (x y : F64.float)
    (current_variants : PyDict.dict string (option string))
    (current_frames : PyDict.dict string Z) (flip_h : bool) (scale : F64.float) :
  (forall dino',
     (forall p, p ∈ ["tail"; "dino"; "legs"; "arms"; "head"] ->
                PyDict.get (parts dino) p = PyDict.get (parts dino') p) ->
     render_dinosaur canvas dino x y current_variants current_frames flip_h scale =
     render_dinosaur canvas dino' x y current_variants current_frames flip_h scale) /\
  ((forall p, p ∈ ["tail"; "dino"; "legs"; "arms"; "head"] ->
              PyDict.get (parts dino) p = None) ->
   render_dinosaur canvas dino x y current_variants current_frames flip_h scale =
   (canvas, None)).
Proof.
  split.
  - intros dino' Hsame. now apply render_parts_same.
  - intros Habs. now apply render_parts_absent.
Qed.

(** ** Mirroring *)

Lemma rev_is_reverse {A : Type} (l : list A) : rev l = reverse l.
Proof. unfold reverse. apply rev_alt. Qed.

Lemma pixel_at_fliplr a r c :
  ndarray_wf a -> 0 <= r < shape0 a -> 0 <= c < shape1 a ->
  pixel_at (fliplr a) r c = pixel_at a r (shape1 a - 1 - c).
Proof.
  intros Hwf Hr Hc. pose proof Hwf as (Hh & Hw & _). unfold pixel_at.
  replace ((0 <=? r) && (0 <=? c)) with true by (symmetry; apply andb_true_iff; lia).
  replace ((0 <=? r) && (0 <=? shape1 a - 1 - c)) with true
    by (symmetry; apply andb_true_iff; lia).
  cbn [fliplr cells]. change (map (@rev pixel) (cells a)) with (@rev pixel <$> cells a).
  rewrite list_lookup_fmap.
  destruct (cells a !! Z.to_nat r) as [row|] eqn:Hrow; [|reflexivity].
  pose proof (row_length_wf a _ row Hwf Hrow) as Hlen.
  cbn. rewrite rev_is_reverse, reverse_lookup by lia. f_equal. lia.
Qed.

Lemma pixel_at_flipud a r c :
  ndarray_wf a -> 0 <= r < shape0 a -> 0 <= c < shape1 a ->
  pixel_at (flipud a) r c = pixel_at a (shape0 a - 1 - r) c.
Proof.
  intros Hwf Hr Hc. pose proof Hwf as (Hh & Hw & _). unfold pixel_at.
  replace ((0 <=? r) && (0 <=? c)) with true by (symmetry; apply andb_true_iff; lia).
  replace ((0 <=? shape0 a - 1 - r) && (0 <=? c)) with true
    by (symmetry; apply andb_true_iff; lia).
  cbn [flipud cells]. rewrite rev_is_reverse, reverse_lookup by lia.
  replace (length (cells a) - S (Z.to_nat r))%nat with (Z.to_nat (shape0 a - 1 - r)) by lia.
  reflexivity.
Qed.

(** X23. At scale 1.0 the source is placed as it is, or mirrored: the
    placed source has the height and width of the image, and its pixel
    at row [r] and column [c] is the pixel of the image in the same
    row, or the opposite one under [flip_v], and in the same column, or
    the opposite one under [flip_h]. *)
Theorem place_source_mirrors (image : DinoImage) (x y : F64.float) (flip_h flip_v : bool)
    (src : ndarray) (dst_x dst_y : Z) :
  ndarray_wf (rgba_data image) ->
  place_source image x y flip_h flip_v (F64.of_Z 1) = Ok (src, dst_x, dst_y) ->
  shape0 src = shape0 (rgba_data image) /\
  shape1 src = shape1 (rgba_data image) /\
  forall r c,
    0 <= r < shape0 src -> 0 <= c < shape1 src ->
    pixel_at src r c =
    pixel_at (rgba_data image)
      (if flip_v then shape0 src - 1 - r else r)
      (if flip_h then shape1 src - 1 - c else c).
Proof.
  intros Hwf. unfold place_source.
  destruct (anchor image) as [anchor_x anchor_y].
  destruct (py_int _) as [dx|e]; cbn [rbind]; [|discriminate].
  destruct (py_int _) as [dy|e]; cbn [rbind]; [|discriminate].
  destruct (py_int _) as [sw|e]; cbn [rbind]; [|discriminate].
  destruct (py_int _) as [sh|e]; cbn [rbind]; [|discriminate].
  replace (negb (F64.eqb (F64.of_Z 1) (F64.of_Z 1))) with false
    by (vm_compute; reflexivity).
  cbn [rbind]. intros [= <- _ _].
  destruct flip_v, flip_h; cbn [shape0 shape1 flipud fliplr];
    (split; [reflexivity|]); (split; [reflexivity|]); intros r c Hr Hc.
  - rewrite pixel_at_flipud by (try apply fliplr_wf; assumption).
    now rewrite pixel_at_fliplr by (cbn [shape0 shape1 fliplr]; (assumption || lia)).
  - now rewrite pixel_at_flipud.
  - now rewrite pixel_at_fliplr.
  - reflexivity.
Qed.

Lemma place_source_mirrors_witness :
  let image := DinoImage_init ["pair.png"]
                 (NdArray 1 2 [[Pixel 255 0 0 255; Pixel 0 0 255 255]]) None in
  exists src dst_x dst_y,
    place_source image (F64.of_Z 1) (F64.of_Z 0) true false (F64.of_Z 1)
      = Ok (src, dst_x, dst_y) /\
    pixel_at src 0 0 = Some (Pixel 0 0 255 255).
Proof.
  intros image.
  exists (NdArray 1 2 [[Pixel 0 0 255 255; Pixel 255 0 0 255]]), 0, 0.
  split; [vm_compute; reflexivity|].
  refine (eq_trans
            (proj2 (proj2 (place_source_mirrors image (F64.of_Z 1) (F64.of_Z 0) true false
                             (NdArray 1 2 [[Pixel 0 0 255 255; Pixel 255 0 0 255]]) 0 0 _ _))
               0 0 _ _) _).
  - solve_ndarray_wf.
  - vm_compute. reflexivity.
  - cbn. lia.
  - cbn. lia.
  - reflexivity.
Defined.


(** ** The host: variant menu *)

(** X24. The variant menu and [change_variant] are inverse to each
    other except for a variant that is itself called "default": a
    menu entry made from a variant stores that variant back, but the
    entry of the named variant "default" stores "no variant". *)
Theorem change_variant_of_display (current_variants : PyDict.dict string (option string))
    (part_name : string) (v : option string) :
  PyDict.get (change_variant current_variants part_name (display_variant v)) part_name =
  Some (if decide (v = Some "default") then None else v).
Proof.
  unfold change_variant. rewrite get_set_eq. f_equal.
  destruct v as [s|]; cbn [display_variant].
  - destruct (decide (s = "default")) as [->|Hs].
    + now rewrite decide_True.
    + rewrite decide_False; [reflexivity | congruence].
  - rewrite decide_True by reflexivity. now rewrite decide_False.
Qed.

(** X25. After a second image is merged into a part that had only a
    "no variant" entry, the menu lists "original" and "default", the
    merged image is stored under "default", and yet whichever entry
    the user picks, the part resolves to the former sequence: the
    merged image cannot be selected. *)
Theorem merged_image_not_selectable (dino : DinoData) (new_path : Path) (rgba : ndarray)
    (p : string) (existing : DinoPartFrames)
    (current_variants : PyDict.dict string (option string)) (choice : string) :
  PyDict.get (parts dino) p = Some [(None, existing)] ->
  let merged := fst (add_to_dinosaur dino new_path (FsFile (Some rgba)) (Some p)) in
  display_variants (get_available_variants merged p) = ["original"; "default"] /\
  stored_frames merged p (Some "default") = [DinoImage_init new_path rgba None] /\
  (choice ∈ display_variants (get_available_variants merged p) ->
   get_part_frames merged p
     (selected_variant (change_variant current_variants p choice) p) = Some existing).
Proof.
  intros Hp merged. subst merged. cbn [add_to_dinosaur from_file].
  set (img := DinoImage_init new_path rgba None).
  unfold merge_image. rewrite Hp.
  change (PyDict.get [(None, existing)] None) with (Some existing).
  cbv beta iota.
  match goal with
  | |- context [PyDict.del ?vm ?k] =>
      change (PyDict.del vm k) with (Ok [(Some "original", existing)])
  end.
  cbv beta iota. cbn [fst].
  set (d2 := with_parts dino (PyDict.set (parts dino) p [(Some "original", existing)])).
  assert (Hvm : variants_of (add_part d2 p (Some "default") img None) p =
                [(Some "original", existing);
                 (Some "default", add_frame (DinoPartFrames_init p (Some "default")) img)]).
  { rewrite variants_of_add_part. unfold seq_of, d2.
    rewrite variants_of_with_parts, get_set_eq. reflexivity. }
  assert (Hget : PyDict.get (parts (add_part d2 p (Some "default") img None)) p =
                 Some [(Some "original", existing);
                       (Some "default",
                        add_frame (DinoPartFrames_init p (Some "default")) img)]).
  { rewrite <- Hvm. unfold variants_of. rewrite add_part_get, decide_True by reflexivity.
    reflexivity. }
  split; [|split].
  - unfold get_available_variants. now rewrite Hget.
  - unfold stored_frames, stored. rewrite Hvm. cbn.
    rewrite decide_False by discriminate. now rewrite decide_True.
  - unfold get_available_variants. rewrite Hget. cbn [PyDict.keys map fst display_variants
      display_variant].
    intros Hin. unfold selected_variant, change_variant. rewrite get_set_eq.
    cbn [default]. unfold get_part_frames. rewrite Hget.
    apply elem_of_cons in Hin as [->|Hin].
    + rewrite decide_False by discriminate. cbn. now rewrite decide_True.
    + apply list_elem_of_singleton in Hin as ->. rewrite decide_True by reflexivity.
      cbn. now rewrite !decide_False by discriminate.
Qed.

Lemma merged_image_not_selectable_witness :
  let merged :=
    fst (add_to_dinosaur head_only ["new.png"]
           (FsFile (Some (NdArray 1 1 [[Pixel 9 9 9 255]]))) (Some "head")) in
  get_part_frames merged "head" (selected_variant (change_variant [] "head" "default") "head")
  = stored head_only "head" None.
Proof.
  refine (proj2 (proj2 (merged_image_not_selectable head_only ["new.png"]
                          (NdArray 1 1 [[Pixel 9 9 9 255]]) "head" _ [] "default" _)) _).
  - reflexivity.
  - apply elem_of_cons. right. apply list_elem_of_singleton. reflexivity.
Defined.

(** ** The host: stats *)

Lemma merge_image_stats dino p v f img :
  stats (fst (merge_image dino p v f img)) = stats dino.
Proof.
  unfold merge_image.
  destruct (PyDict.get (parts dino) p) as [vm|]; [|reflexivity].
  destruct (PyDict.get vm None) as [existing|]; [|reflexivity].
  destruct (PyDict.del _ None); reflexivity.
Qed.

Lemma merge_listing_stats new_path pngs : forall dino,
  stats (fst (merge_listing new_path dino pngs)) = stats dino.
Proof.
  induction pngs as [|[relative content] rest IH]; intros dino; [reflexivity|].
  cbn [merge_listing]. destruct (parse_filename (name relative)) as [[b v] f].
  destruct (from_file _ content) as [img|e]; [|reflexivity].
  now rewrite IH.
Qed.

Lemma rfoldM_load_stats path pngs : forall d dino,
  rfoldM (load_step path) d pngs = Ok dino -> stats dino = stats d.
Proof.
  induction pngs as [|entry rest IH]; intros d dino; cbn [rfoldM].
  - now intros [= <-].
  - destruct (load_step path d entry) as [d'|e] eqn:Hstep; cbn [rbind]; [|discriminate].
    apply load_step_ok in Hstep as (p & v & img & f & ->).
    intros Hrest. now rewrite (IH _ _ Hrest).
Qed.

(** X26. The loader never touches the stats: a dinosaur that
    [load_dinosaur] returns has the single stat hunger = 50, whatever
    was loaded, and [add_to_dinosaur] leaves the stats as they are,
    whatever it merges and also when it stops at an undecodable file. *)
Theorem loader_leaves_stats (path : Path) (node : fs_node) (dino : DinoData) :
  (load_dinosaur path node = Ok dino -> stats dino = [("hunger", 50)]) /\
  (forall new_path new_node part_name,
     stats (fst (add_to_dinosaur dino new_path new_node part_name)) = stats dino).
Proof.
  split.
  - destruct node as [content|pngs|]; cbn [load_dinosaur]; [| |discriminate].
    + destruct (from_file path content) as [img|e]; cbn [rbind]; [|discriminate].
      now intros [= <-].
    + intros Hload. now rewrite (rfoldM_load_stats _ _ _ _ Hload).
  - intros new_path [content|pngs|] part_name; cbn [add_to_dinosaur]; [| |reflexivity].
    + destruct part_name as [q|]; [|destruct (parse_filename _) as [[b v] f]];
        (destruct (from_file new_path content) as [img|e];
         [apply merge_image_stats | reflexivity]).
    + apply merge_listing_stats.
Qed.

Lemma hunger_of_with_stats d h :
  hunger_of (with_stats d (PyDict.set (stats d) "hunger" h)) = h.
Proof. unfold hunger_of. cbn [stats with_stats]. now rewrite get_set_eq. Qed.

(** X27. Hunger stays between 0 and 100.  From a value in that range,
    [feed] raises it by 20 but not above 100, and [update_hunger]
    lowers it by at most 1 but not below 0, whatever the clock says;
    neither touches the parts. *)
Theorem hunger_stays_in_range (d : DinoData) (last_hunger_decrease current_time : F64.float) :
  0 <= hunger_of d <= 100 ->
  (exists d', feed (Some d) = Some d' /\ parts d' = parts d /\
              hunger_of d' = Z.min 100 (hunger_of d + 20) /\
              hunger_of d <= hunger_of d' <= 100) /\
  (exists d', fst (update_hunger (Some d) last_hunger_decrease current_time) = Some d' /\
              parts d' = parts d /\
              0 <= hunger_of d' <= hunger_of d /\ hunger_of d - 1 <= hunger_of d').
Proof.
  intros Hrange. split.
  - eexists. split; [reflexivity|]. rewrite hunger_of_with_stats.
    split; [reflexivity|]. lia.
  - unfold update_hunger. destruct (SFltb _ _); cbn [fst].
    + eexists. split; [reflexivity|]. rewrite hunger_of_with_stats.
      split; [reflexivity|]. lia.
    + exists d. split; [reflexivity|]. split; [reflexivity|]. lia.
Qed.

Lemma hunger_stays_in_range_witness :
  (exists d', feed (Some dino_only) = Some d' /\ parts d' = parts dino_only /\
              hunger_of d' = Z.min 100 (hunger_of dino_only + 20) /\
              hunger_of dino_only <= hunger_of d' <= 100) /\
  (exists d', fst (update_hunger (Some dino_only) (F64.of_Z 0) (F64.of_Z 6)) = Some d' /\
              parts d' = parts dino_only /\
              0 <= hunger_of d' <= hunger_of dino_only /\
              hunger_of dino_only - 1 <= hunger_of d').
Proof.
  apply (hunger_stays_in_range dino_only (F64.of_Z 0) (F64.of_Z 6)).
  vm_compute. split; discriminate.
Defined.

(** ** The host: hatching *)

Lemma initial_variants_fold dino p k rest ks :
  get_available_variants dino p = k :: rest ->
  forall cv : PyDict.dict string (option string),
    p ∈ ks \/ PyDict.get cv p = Some k ->
    PyDict.get
      (fold_left (fun cv part_name =>
                    match get_available_variants dino part_name with
                    | v :: _ => PyDict.set cv part_name v
                    | [] => cv
                    end) ks cv) p = Some k.
Proof.
  intros Hk. induction ks as [|a ks IH]; intros cv Hcv; cbn [fold_left].
  - destruct Hcv as [Hin|Hget]; [|exact Hget]. now apply elem_of_nil in Hin.
  - apply IH. destruct (decide (a = p)) as [->|Hne].
    + right. rewrite Hk. apply get_set_eq.
    + destruct Hcv as [Hin|Hget].
      * left. apply elem_of_cons in Hin as [->|Hin]; [congruence | exact Hin].
      * right. destruct (get_available_variants dino a); [exact Hget|].
        now rewrite get_set_ne.
Qed.

(** X28. After hatching, every part of the dinosaur is set to the
    variant that was inserted first for it, and the part resolves to
    the sequence stored under that variant. *)
Theorem hatch_selects_first_variant (dino : DinoData) (p : string) (k : option string)
    (seq : DinoPartFrames) (rest : variant_map) :
  PyDict.get (parts dino) p = Some ((k, seq) :: rest) ->
  PyDict.get (initial_variants dino) p = Some k /\
  get_part_frames dino p (selected_variant (initial_variants dino) p) = Some seq.
Proof.
  intros Hp.
  assert (Hsel : PyDict.get (initial_variants dino) p = Some k).
  { unfold initial_variants.
    apply (initial_variants_fold dino p k (PyDict.keys rest)).
    - unfold get_available_variants. now rewrite Hp.
    - left. destruct (decide (p ∈ PyDict.keys (parts dino))) as [Hin|Hout]; [exact Hin|].
      apply get_None_keys in Hout. congruence. }
  split; [exact Hsel|].
  unfold selected_variant. rewrite Hsel. cbn [default].
  unfold get_part_frames. rewrite Hp. cbn [PyDict.get]. now rewrite decide_True.
Qed.

Lemma hatch_selects_first_variant_witness :
  PyDict.get (initial_variants head_with_original) "head" = Some None /\
  get_part_frames head_with_original "head"
    (selected_variant (initial_variants head_with_original) "head") =
  Some (MkDinoPartFrames "head" None
          [DinoImage_init ["rex"; "head.png"] (NdArray 1 1 [[Pixel 0 255 0 255]]) None]).
Proof.
  apply (hatch_selects_first_variant head_with_original "head" None _
           [(Some "original", MkDinoPartFrames "head" (Some "original")
                [DinoImage_init ["rex"; "head_original.png"]
                   (NdArray 1 1 [[Pixel 0 0 255 255]]) None])]).
  reflexivity.
Defined.

(** ** The host: animation frames *)

Lemma advance_keys_keys dino cv fc ks : forall cf,
  (forall k, k ∈ ks -> k ∈ PyDict.keys cf) ->
  PyDict.keys (fst (advance_keys ks dino cv cf fc)) = PyDict.keys cf.
Proof.
  induction ks as [|a ks IH]; intros cf Hks; [reflexivity|].
  assert (Hrest : forall k, k ∈ ks -> k ∈ PyDict.keys cf)
    by (intros k Hk; apply Hks; now right).
  cbn [advance_keys].
  destruct (get_part_frames dino a _) as [part_frames|]; [|now apply IH].
  destruct (1 <? frame_count part_frames); [|now apply IH].
  destruct (py_int fc) as [n|e]; [|reflexivity].
  assert (Ha : is_Some (PyDict.get cf a)).
  { destruct (PyDict.get cf a) eqn:Hget; [eauto|].
    apply get_None_keys in Hget. exfalso. apply Hget, Hks. now left. }
  rewrite IH.
  - now apply keys_set_present.
  - intros k Hk. rewrite keys_set_present by exact Ha. now apply Hrest.
Qed.

(** X29. The animation loop of [update_physics] never gives
    [current_frames] a key it did not have.  As the host creates that
    dictionary empty and otherwise only clears it, it is empty
    whenever a frame is rendered, so every part is drawn with the
    first frame of its sequence: the animation never advances. *)
Theorem animation_never_advances :
  (forall dino current_variants current_frames frame_counter dt,
     PyDict.keys
       (fst (fst (advance_frames dino current_variants current_frames frame_counter dt))) =
     PyDict.keys current_frames) /\
  (forall current_frames, host_frames current_frames -> current_frames = []) /\
  (forall current_frames dino current_variants part_name seq,
     host_frames current_frames ->
     get_part_frames dino part_name (selected_variant current_variants part_name) = Some seq ->
     part_action_of dino current_variants current_frames part_name =
     match frames seq with
     | image :: _ => Draw image
     | [] => Skip
     end).
Proof.
  assert (Hempty : forall cf, host_frames cf -> cf = []).
  { induction 1 as [|dino cv cf fc dt _ IH]; [reflexivity|]. now subst cf. }
  split; [|split; [exact Hempty|]].
  - intros dino cv cf fc dt. unfold advance_frames.
    pose proof (advance_keys_keys dino cv
                  (SFadd F64.prec F64.emax fc (F64.mul dt (F64.of_Z 10)))
                  (PyDict.keys cf) cf (fun k Hk => Hk)) as Hkeys.
    destruct (advance_keys _ _ _ _ _) as [cf' e]. exact Hkeys.
  - intros cf dino cv part_name seq Hhost Hseq. rewrite (Hempty cf Hhost).
    unfold part_action_of. unfold selected_variant in Hseq. rewrite Hseq.
    unfold frame_count, get_frame. destruct (frames seq) as [|image rest]; reflexivity.
Qed.

(** ** The host: the rendered frame *)

Lemma index_at_lookup {A : Type} (l : list A) (i : Z) (a : A) :
  index_at l i = Ok a -> exists j, l !! j = Some a.
Proof.
  unfold index_at. destruct (_ && _); [|discriminate].
  destruct (l !! _) as [b|] eqn:Hb; [|discriminate]. intros [= <-]. eauto.
Qed.

Lemma rmapM_lookup {A B : Type} (f : A -> result B) (l : list A) :
  forall (l' : list B) (n : nat) (b : B),
    rmapM f l = Ok l' -> l' !! n = Some b -> exists a, l !! n = Some a /\ f a = Ok b.
Proof.
  induction l as [|a r IH]; intros l' n b; cbn [rmapM].
  - intros [= <-]. discriminate.
  - destruct (f a) as [b0|e] eqn:Hb0; cbn [rbind]; [|discriminate].
    destruct (rmapM f r) as [bs|e] eqn:Hbs; cbn [rbind]; [|discriminate].
    intros [= <-]. destruct n as [|n]; cbn.
    + intros [= <-]. eauto.
    + intros Hn. exact (IH bs n b eq_refl Hn).
Qed.

(** Every pixel of [a[np.ix_(ys, xs)]] is a pixel of [a]. *)
Lemma take_ix_pixel a ys xs a' r c s :
  take_ix a ys xs = Ok a' -> pixel_at a' r c = Some s ->
  exists r' c', pixel_at a r' c' = Some s.
Proof.
  unfold take_ix.
  destruct (rmapM (index_at (cells a)) ys) as [rows|e] eqn:Hrows; cbn [rbind]; [|discriminate].
  destruct (rmapM (index_at (arange (shape1 a))) xs) as [cols|e]; cbn [rbind]; [|discriminate].
  destruct (rmapM _ rows) as [picked|e] eqn:Hpicked; cbn [rbind]; [|discriminate].
  intros [= <-]. unfold pixel_at at 1. cbn [cells].
  destruct (_ && _); [|discriminate].
  destruct (picked !! Z.to_nat r) as [row'|] eqn:Hrow'; [|discriminate].
  intros Hs.
  destruct (rmapM_lookup _ _ _ _ _ Hpicked Hrow') as (row & Hrow & Hmap).
  destruct (rmapM_lookup _ _ _ _ _ Hmap Hs) as (x & _ & Hx).
  destruct (index_at_lookup _ _ _ Hx) as (j & Hj).
  destruct (rmapM_lookup _ _ _ _ _ Hrows Hrow) as (y & _ & Hy).
  destruct (index_at_lookup _ _ _ Hy) as (i & Hi).
  exists (Z.of_nat i), (Z.of_nat j). unfold pixel_at.
  rewrite (proj2 (Z.leb_le 0 (Z.of_nat i)) (Nat2Z.is_nonneg i)).
  rewrite (proj2 (Z.leb_le 0 (Z.of_nat j)) (Nat2Z.is_nonneg j)).
  cbn [andb]. now rewrite !Nat2Z.id, Hi.
Qed.

Lemma fliplr_alpha_bytes a : ndarray_wf a -> alpha_bytes a -> alpha_bytes (fliplr a).
Proof.
  intros Hwf Hbytes r c s Hs.
  assert (Hrc : 0 <= r < shape0 a /\ 0 <= c < shape1 a).
  { apply (pixel_at_Some (fliplr a) r c (fliplr_wf a Hwf)). eauto. }
  rewrite pixel_at_fliplr in Hs by tauto. eauto.
Qed.

Lemma flipud_alpha_bytes a : ndarray_wf a -> alpha_bytes a -> alpha_bytes (flipud a).
Proof.
  intros Hwf Hbytes r c s Hs.
  assert (Hrc : 0 <= r < shape0 a /\ 0 <= c < shape1 a).
  { apply (pixel_at_Some (flipud a) r c (flipud_wf a Hwf)). eauto. }
  rewrite pixel_at_flipud in Hs by tauto. eauto.
Qed.

(** The placed source has no pixel that the image does not have. *)
Lemma place_source_alpha_bytes image x y flip_h flip_v scale src dst_x dst_y :
  ndarray_wf (rgba_data image) -> alpha_bytes (rgba_data image) ->
  place_source image x y flip_h flip_v scale = Ok (src, dst_x, dst_y) ->
  alpha_bytes src.
Proof.
  intros Hwf Hbytes. unfold place_source.
  set (flipped := if flip_v then _ else _).
  assert (Hflipped : alpha_bytes flipped).
  { unfold flipped. destruct flip_v, flip_h;
      auto using fliplr_alpha_bytes, flipud_alpha_bytes, fliplr_wf. }
  clearbody flipped. destruct (anchor image) as [anchor_x anchor_y].
  destruct (py_int _) as [dx|e]; cbn [rbind]; [|discriminate].
  destruct (py_int _) as [dy|e]; cbn [rbind]; [|discriminate].
  destruct (py_int _) as [sw|e]; cbn [rbind]; [|discriminate].
  destruct (py_int _) as [sh|e]; cbn [rbind]; [|discriminate].
  destruct (negb _).
  - destruct (take_ix _ _ _) as [scaled|e] eqn:Hscaled; cbn [rbind]; [|discriminate].
    intros [= <- _ _] r c s Hs.
    destruct (take_ix_pixel _ _ _ _ _ _ _ Hscaled Hs) as (r' & c' & Hs'). eauto.
  - cbn [rbind]. now intros [= <- _ _].
Qed.

Lemma blit_opaque canvas src dst_x dst_y :
  ndarray_wf canvas -> ndarray_wf src -> alpha_bytes src -> opaque canvas ->
  opaque (blit canvas src dst_x dst_y).
Proof.
  intros Hcw Hsw Hbytes Hop r c d' Hd'.
  destruct (blit_wf canvas src dst_x dst_y Hcw) as (Hbw & H0 & H1).
  assert (Hrc : 0 <= r < shape0 canvas /\ 0 <= c < shape1 canvas).
  { rewrite <- H0, <- H1. apply (pixel_at_Some _ r c Hbw). eauto. }
  apply (pixel_at_Some canvas r c Hcw) in Hrc as [d Hd].
  rewrite (blit_pixel _ _ _ _ _ _ d Hcw Hsw Hd) in Hd'. injection Hd' as <-.
  pose proof (Hop r c d Hd) as Ha.
  destruct (pixel_at src (r - dst_y) (c - dst_x)) as [s|] eqn:Hs; [|exact Ha].
  cbn. rewrite Ha. fold alpha_one. apply blend_alpha_opaque_dst. eauto.
Qed.

(** A sequence that a part resolves to is stored in the tree. *)
Lemma get_part_frames_in dino p v seq :
  get_part_frames dino p v = Some seq ->
  exists vm k, PyDict.get (parts dino) p = Some vm /\ PyDict.get vm k = Some seq.
Proof.
  unfold get_part_frames.
  destruct (PyDict.get (parts dino) p) as [vm|]; [|discriminate].
  destruct (PyDict.get vm v) as [s1|] eqn:H1; [intros [= <-]; eauto|].
  destruct (PyDict.get vm None) as [s2|] eqn:H2; [intros [= <-]; eauto|].
  destruct vm as [|[k0 s0] r]; [discriminate|]. cbn. intros [= <-].
  exists ((k0, s0) :: r), k0. split; [reflexivity|]. cbn. now rewrite decide_True.
Qed.

Lemma get_frame_in seq i image : get_frame seq i = Ok image -> image ∈ frames seq.
Proof.
  unfold get_frame. destruct (frames seq) as [|f0 fs] eqn:Hf; [discriminate|].
  destruct (_ !! _) as [im|] eqn:Him; [|discriminate]. intros [= <-].
  eapply list_elem_of_lookup_2, Him.
Qed.

Lemma render_parts_opaque order : forall canvas dino_data x y current_variants
    current_frames flip_h scale,
  tree_images_ok dino_data -> ndarray_wf canvas -> opaque canvas ->
  opaque (fst (render_parts order canvas dino_data x y current_variants current_frames
                 flip_h scale)).
Proof.
  induction order as [|part_name rest IH];
    intros canvas dino_data x y cv cf flip_h scale Htree Hwf Hop; [exact Hop|].
  cbn [render_parts].
  destruct (part_action_of dino_data cv cf part_name) as [|image|e] eqn:Hact;
    [now apply IH | | exact Hop].
  assert (Himg : ndarray_wf (rgba_data image) /\ alpha_bytes (rgba_data image)).
  { unfold part_action_of in Hact.
    destruct (get_part_frames _ _ _) as [seq|] eqn:Hseq; [|discriminate].
    destruct (frame_count seq =? 0); [discriminate|].
    destruct (get_frame seq _) as [im|e] eqn:Him; [|discriminate].
    injection Hact as ->.
    destruct (get_part_frames_in _ _ _ _ Hseq) as (vm & k & Hvm & Hk).
    exact (Htree _ _ _ _ _ Hvm Hk (get_frame_in _ _ _ Him)). }
  destruct Himg as [Hiw Hib].
  unfold composite_image.
  destruct (place_source image x y flip_h false scale) as [[[src dst_x] dst_y]|e] eqn:Hplace;
    cbn [rbind]; [|exact Hop].
  apply IH; [exact Htree | now apply blit_wf |].
  apply blit_opaque; try assumption.
  - exact (place_source_wf _ _ _ _ _ _ _ _ _ Hiw Hplace).
  - exact (place_source_alpha_bytes _ _ _ _ _ _ _ _ _ Hiw Hib Hplace).
Qed.

(** X30. The frame that the host shows is fully opaque and owes
    nothing to the frame before: after [render], every pixel of the
    buffer has alpha 255, whatever the images of the dinosaur, its
    position and its scale, and also when drawing stops by an
    exception; and two buffers of the same shape hold the same frame.
    Without a dinosaur every pixel is sky blue. *)
Theorem rendered_frame_is_opaque (canvas_buffer : ndarray) (dino : option DinoData)
    (dino_x dino_y : F64.float) (current_variants : PyDict.dict string (option string))
    (current_frames : PyDict.dict string Z) (dino_flip : bool) (dino_scale : F64.float) :
  ndarray_wf canvas_buffer ->
  (forall d, dino = Some d -> tree_images_ok d) ->
  let frame := fst (pet_render canvas_buffer dino dino_x dino_y current_variants
                      current_frames dino_flip dino_scale) in
  opaque frame /\
  shape0 frame = shape0 canvas_buffer /\ shape1 frame = shape1 canvas_buffer /\
  (forall other,
     ndarray_wf other ->
     shape0 other = shape0 canvas_buffer -> shape1 other = shape1 canvas_buffer ->
     pet_render other dino dino_x dino_y current_variants current_frames
       dino_flip dino_scale =
     pet_render canvas_buffer dino dino_x dino_y current_variants current_frames
       dino_flip dino_scale) /\
  (dino = None ->
   forall r c, 0 <= r < shape0 canvas_buffer -> 0 <= c < shape1 canvas_buffer ->
               pixel_at frame r c = Some sky_blue).
Proof.
  intros Hwf Htree frame. subst frame. unfold pet_render.
  rewrite clear_canvas_uniform by assumption.
  pose proof Hwf as (Hh & Hw & _).
  set (cleared := NdArray _ _ _).
  assert (Hcw : ndarray_wf cleared) by (apply uniform_wf; lia).
  assert (Hcop : opaque cleared).
  { intros r c d Hd.
    assert (Hrc : 0 <= r < shape0 canvas_buffer /\ 0 <= c < shape1 canvas_buffer)
      by (apply (pixel_at_Some cleared r c Hcw); eauto).
    unfold cleared in Hd. rewrite pixel_at_uniform in Hd by tauto.
    now injection Hd as <-. }
  split; [|split; [|split; [|split]]].
  - destruct dino as [d|]; [|exact Hcop].
    apply render_parts_opaque; auto.
  - destruct dino as [d|]; [|reflexivity].
    now destruct (render_parts_wf render_order cleared d dino_x dino_y current_variants
                    current_frames dino_flip dino_scale Hcw) as (_ & H0 & _).
  - destruct dino as [d|]; [|reflexivity].
    now destruct (render_parts_wf render_order cleared d dino_x dino_y current_variants
                    current_frames dino_flip dino_scale Hcw) as (_ & _ & H1).
  - intros other How Ho0 Ho1. rewrite clear_canvas_uniform by assumption.
    now rewrite Ho0, Ho1.
  - intros -> r c Hr Hc. cbn [fst]. now apply pixel_at_uniform.
Qed.

Lemma rendered_frame_is_opaque_witness :
  opaque (fst (pet_render blank2 (Some dino_only) (F64.of_Z 1) (F64.of_Z 1) [] [] false
                 (F64.of_Z 1))).
Proof.
  refine (proj1 (rendered_frame_is_opaque blank2 (Some dino_only) (F64.of_Z 1) (F64.of_Z 1)
                   [] [] false (F64.of_Z 1) _ _)).
  - solve_ndarray_wf.
  - intros d [= <-] p vm v seq img Hvm Hseq Himg.
    cbn in Hvm. destruct (decide ("dino" = p)); [|discriminate]. injection Hvm as <-.
    cbn in Hseq. destruct (decide (None = v)); [|discriminate]. injection Hseq as <-.
    cbn in Himg. apply list_elem_of_singleton in Himg as ->.
    split; [solve_ndarray_wf|].
    intros r c s. unfold pixel_at. cbn [cells rgba_data red_dot DinoImage_init].
    destruct ((0 <=? r) && (0 <=? c)); [|discriminate].
    destruct (Z.to_nat r) as [|n]; cbn; [|discriminate].
    destruct (Z.to_nat c) as [|m]; cbn; [|discriminate].
    intros [= <-]. cbn. lia.
Defined.
